(** * Pix2PixHDModel: the feature subsystem, the input encoder and the loss filter

    A shallow embedding of [generation/models/pix2pixHD_model.py].

    - A torch tensor of rank four is a record of its four sizes and a total
      cell function; reading or writing outside the sizes raises
      [IndexError], as torch does.
    - Python exceptions are the [Raise] branch of a result type.
    - Dictionaries keyed by class id ([features_dict], [features_clustered],
      the dictionary built by [encode_features]) are finite maps over [Z].
    - Label and instance maps hold integers; feature values are floats that
      the code only copies, so their type is a parameter of the development.
    - The feature maps handed to [swap_features] are objects of a heap, so
      that aliasing between the two arguments is visible. *)

From Stdlib Require Import ZArith List Bool Lia Sorted.
From stdpp Require Import base option list gmap fin_maps.
Import ListNotations.

(** ** Python exceptions *)

Inductive exn : Set :=
| AssertionError
| IndexError
| KeyError
| ValueError
| ZeroDivisionError
| AttributeError
| RuntimeError.

Inductive Result (A : Type) : Type :=
| Ok (a : A)
| Raise (e : exn).

Arguments Ok {A} a.
Arguments Raise {A} e.

#[global] Instance Result_ret : MRet Result := fun A a => Ok a.

#[global] Instance Result_bind : MBind Result := fun A B k r =>
  match r with
  | Ok a => k a
  | Raise e => Raise e
  end.

(** [assert(b)] *)
Definition py_assert (b : bool) : Result unit :=
  if b then Ok tt else Raise AssertionError.

(** A [for] loop whose body may raise. *)
Fixpoint foldM {A B : Type} (f : B -> A -> Result B) (b : B) (l : list A)
  : Result B :=
  match l with
  | [] => Ok b
  | a :: l' => b' ← f b a; foldM f b' l'
  end.

(** ** Tensors of rank four *)

Record Tensor (A : Type) : Type := mkTensor {
  dimN : nat;
  dimC : nat;
  dimH : nat;
  dimW : nat;
  cell : nat -> nat -> nat -> nat -> A
}.

Arguments mkTensor {A} _ _ _ _ _.
Arguments dimN {A} _.
Arguments dimC {A} _.
Arguments dimH {A} _.
Arguments dimW {A} _.
Arguments cell {A} _ _ _ _ _.

(** A row of the matrix returned by [nonzero()]: (sample, channel, row, column). *)
Definition Idx : Type := (nat * nat * nat * nat)%type.

Definition idx_eqb (i j : Idx) : bool :=
  let '(n, c, h, w) := i in
  let '(n', c', h', w') := j in
  (n =? n') && (c =? c') && (h =? h') && (w =? w').

Definition at_ {A : Type} (t : Tensor A) (ix : Idx) : A :=
  let '(n, c, h, w) := ix in cell t n c h w.

Definition in_bounds {A : Type} (t : Tensor A) (ix : Idx) : bool :=
  let '(n, c, h, w) := ix in
  (n <? dimN t) && (c <? dimC t) && (h <? dimH t) && (w <? dimW t).

(** [t[n, c, h, w]] *)
Definition tget {A : Type} (t : Tensor A) (ix : Idx) : Result A :=
  if in_bounds t ix then Ok (at_ t ix) else Raise IndexError.

(** [t[n, c, h, w] = v] *)
Definition tset {A : Type} (t : Tensor A) (ix : Idx) (v : A)
  : Result (Tensor A) :=
  if in_bounds t ix
  then Ok (mkTensor (dimN t) (dimC t) (dimH t) (dimW t)
             (fun n c h w =>
                if idx_eqb (n, c, h, w) ix then v else cell t n c h w))
  else Raise IndexError.

Definition tmap {A B : Type} (f : A -> B) (t : Tensor A) : Tensor B :=
  mkTensor (dimN t) (dimC t) (dimH t) (dimW t)
    (fun n c h w => f (cell t n c h w)).

(** All coordinates of a tensor of the given sizes, in row-major order: the
    order of the rows of [nonzero()] and of the flattened array. *)
Definition coords (N C H W : nat) : list Idx :=
  flat_map (fun n =>
    flat_map (fun c =>
      flat_map (fun h =>
        map (fun w => (n, c, h, w)) (seq 0 W))
      (seq 0 H))
    (seq 0 C))
  (seq 0 N).

Definition coords_of {A : Type} (t : Tensor A) : list Idx :=
  coords (dimN t) (dimC t) (dimH t) (dimW t).

(** [t.cpu().numpy().astype(int)], flattened *)
Definition values {A : Type} (t : Tensor A) : list A :=
  map (at_ t) (coords_of t).

(** [(t == int(i))] *)
Definition eq_scalar (t : Tensor Z) (i : Z) : Tensor bool :=
  tmap (fun v => (v =? i)%Z) t.

(** [mask.nonzero()] *)
Definition nonzero (mask : Tensor bool) : list Idx :=
  List.filter (at_ mask) (coords_of mask).

(** [t[0:1]] *)
Definition first_sample {A : Type} (t : Tensor A) : Tensor A :=
  mkTensor (Nat.min 1 (dimN t)) (dimC t) (dimH t) (dimW t) (cell t).

(** [torch.cat((a, b), dim=1)] *)
Definition cat1 {A : Type} (a b : Tensor A) : Result (Tensor A) :=
  if (dimN a =? dimN b) && (dimH a =? dimH b) && (dimW a =? dimW b)
  then Ok (mkTensor (dimN a) (dimC a + dimC b) (dimH a) (dimW a)
             (fun n c h w =>
                if c <? dimC a then cell a n c h w
                else cell b n (c - dimC a) h w))
  else Raise RuntimeError.

(** [t[ix0, ix1, ix2, ix3] = v] for index tensors given as rows. *)
Definition index_put {A : Type} (t : Tensor A) (idx : list Idx) (v : A)
  : Result (Tensor A) :=
  foldM (fun t' ix => tset t' ix v) t idx.

(** ** [np.unique]: the sorted distinct values *)

Fixpoint insert_sorted (x : Z) (l : list Z) : list Z :=
  match l with
  | [] => [x]
  | y :: l' =>
      if (x <? y)%Z then x :: l
      else if (x =? y)%Z then l
      else y :: insert_sorted x l'
  end.

Definition np_unique (l : list Z) : list Z :=
  fold_right insert_sorted [] l.

(** [x in arr] for a Python int [x] and a numpy array [arr]. *)
Definition py_in (x : Z) (arr : list Z) : bool :=
  existsb (fun y => (y =? x)%Z) arr.

(** ** numpy arrays of rank two *)

Record Array2 (A : Type) : Type := mkArray2 {
  ncols : nat;
  rows : list (list A)
}.

Arguments mkArray2 {A} _ _.
Arguments ncols {A} _.
Arguments rows {A} _.

(** [a.shape[0]] *)
Definition nrows {A : Type} (a : Array2 A) : nat := length (rows a).

(** [a[r, k]] with non-negative [r] and [k] *)
Definition arr_get {A : Type} (a : Array2 A) (r k : nat) : Result A :=
  match nth_error (rows a) r with
  | Some row =>
      if k <? ncols a then
        match nth_error row k with
        | Some v => Ok v
        | None => Raise IndexError
        end
      else Raise IndexError
  | None => Raise IndexError
  end.

(** [np.expand_dims(a[label, :], axis=0)]: numpy counts a negative row index
    from the end. *)
Definition arr_row {A : Type} (a : Array2 A) (label : Z) : Result (Array2 A) :=
  let r := (if label <? 0 then Z.of_nat (nrows a) + label else label)%Z in
  if (r <? 0)%Z then Raise IndexError
  else match nth_error (rows a) (Z.to_nat r) with
       | Some row => Ok (mkArray2 (ncols a) [row])
       | None => Raise IndexError
       end.

(** [np.zeros((0, d))] *)
Definition np_zeros_0 {A : Type} (d : nat) : Array2 A := mkArray2 d [].

(** [np.append(a, val, axis=0)] *)
Definition np_append {A : Type} (a val : Array2 A) : Result (Array2 A) :=
  if ncols a =? ncols val
  then Ok (mkArray2 (ncols a) (rows a ++ rows val))
  else Raise ValueError.

(** ** Options read by the modelled methods ([self.opt]) *)

Record Opt : Set := mkOpt {
  label_nc : nat;
  feat_num : nat;
  no_instance : bool;
  data_type : Z
}.

(** [label = i if i < 1000 else i//1000] *)
Definition class_of (i : Z) : Z :=
  if (i <? 1000)%Z then i else (i / 1000)%Z.

(** ** Loss filter *)

Section LossFilter.
Context {L : Type}.

(** [init_loss_filter] returns the closure [loss_filter]; the closure is the
    partial application to the four flags. *)
Definition init_loss_filter
    (use_gan_feat_loss use_vgg_loss use_style_loss use_recon_loss : bool)
    (g_gan g_gan_feat g_vgg g_style g_recon d_real d_fake : L) : list L :=
  let flags :=
    [true; use_gan_feat_loss; use_vgg_loss; use_style_loss; use_recon_loss;
     true; true] in
  map fst
    (List.filter snd
       (combine [g_gan; g_gan_feat; g_vgg; g_style; g_recon; d_real; d_fake]
                flags)).

(** The auxiliary terms kept between the generator loss and the two
    discriminator losses. *)
Definition aux_terms
    (use_gan_feat_loss use_vgg_loss use_style_loss use_recon_loss : bool)
    (g_gan_feat g_vgg g_style g_recon : L) : list L :=
  (if use_gan_feat_loss then [g_gan_feat] else [])
    ++ (if use_vgg_loss then [g_vgg] else [])
    ++ (if use_style_loss then [g_style] else [])
    ++ (if use_recon_loss then [g_recon] else []).

End LossFilter.


(** ** Input encoder *)

(** The one-hot tensor and the edge map hold only the floats 0.0 and 1.0,
    written [0] and [1] in [Z]; float16 represents both exactly, so [half()]
    and [float()] give the same cells. *)
Definition to_float (edge : Tensor bool) : Tensor Z := tmap Z.b2z edge.
Definition to_half (edge : Tensor bool) : Tensor Z := tmap Z.b2z edge.

(** [torch.ByteTensor(t.size()).zero_()] *)
Definition zero_mask (t : Tensor Z) : Tensor bool :=
  mkTensor (dimN t) (dimC t) (dimH t) (dimW t) (fun _ _ _ _ => false).

(** [edge[:,:,:,1:] = edge[:,:,:,1:] | (t[:,:,:,1:] != t[:,:,:,:-1])] *)
Definition edges_left (t : Tensor Z) (edge : Tensor bool) : Tensor bool :=
  mkTensor (dimN edge) (dimC edge) (dimH edge) (dimW edge)
    (fun n c h w =>
       if (1 <=? w) && (w <? dimW t)
       then cell edge n c h w
            || negb (cell t n c h w =? cell t n c h (w - 1))%Z
       else cell edge n c h w).

(** [edge[:,:,:,:-1] = edge[:,:,:,:-1] | (t[:,:,:,1:] != t[:,:,:,:-1])] *)
Definition edges_right (t : Tensor Z) (edge : Tensor bool) : Tensor bool :=
  mkTensor (dimN edge) (dimC edge) (dimH edge) (dimW edge)
    (fun n c h w =>
       if w + 1 <? dimW t
       then cell edge n c h w
            || negb (cell t n c h (w + 1) =? cell t n c h w)%Z
       else cell edge n c h w).

(** [edge[:,:,1:,:] = edge[:,:,1:,:] | (t[:,:,1:,:] != t[:,:,:-1,:])] *)
Definition edges_up (t : Tensor Z) (edge : Tensor bool) : Tensor bool :=
  mkTensor (dimN edge) (dimC edge) (dimH edge) (dimW edge)
    (fun n c h w =>
       if (1 <=? h) && (h <? dimH t)
       then cell edge n c h w
            || negb (cell t n c h w =? cell t n c (h - 1) w)%Z
       else cell edge n c h w).

(** [edge[:,:,:-1,:] = edge[:,:,:-1,:] | (t[:,:,1:,:] != t[:,:,:-1,:])] *)
Definition edges_down (t : Tensor Z) (edge : Tensor bool) : Tensor bool :=
  mkTensor (dimN edge) (dimC edge) (dimH edge) (dimW edge)
    (fun n c h w =>
       if h + 1 <? dimH t
       then cell edge n c h w
            || negb (cell t n c (h + 1) w =? cell t n c h w)%Z
       else cell edge n c h w).

(** The byte mask [edge] just before its conversion to floats. *)
Definition edge_mask (t : Tensor Z) : Tensor bool :=
  edges_down t (edges_up t (edges_right t (edges_left t (zero_mask t)))).

Definition get_edges (opt : Opt) (t : Tensor Z) : Tensor Z :=
  let edge := edge_mask t in
  if (data_type opt =? 16)%Z then to_half edge else to_float edge.

(** [torch.FloatTensor(torch.Size((N, C, H, W))).zero_()] *)
Definition zeros (N C H W : nat) : Tensor Z :=
  mkTensor N C H W (fun _ _ _ _ => 0%Z).

(** [self.scatter_(1, index, 1.0)]: for every entry [(n, c, h, w)] of [index],
    [self[n, index[n, c, h, w], h, w] = 1.0]; an index value outside the
    channel range is a run-time error. *)
Definition scatter_one (index : Tensor Z) (self : Tensor Z) (ix : Idx)
  : Result (Tensor Z) :=
  let '(n, _, h, w) := ix in
  let v := at_ index ix in
  if (0 <=? v)%Z && (v <? Z.of_nat (dimC self))%Z
  then match tset self (n, Z.to_nat v, h, w) 1%Z with
       | Ok t => Ok t
       | Raise _ => Raise RuntimeError
       end
  else Raise RuntimeError.

Definition scatter_ (self index : Tensor Z) : Result (Tensor Z) :=
  foldM (scatter_one index) self (coords_of index).

(** The encoded label tensor [input_label] returned by [encode_input]; the
    other three components of the returned tuple are the arguments
    themselves.  [inst_map] is [None] when the caller passes no instance
    map. *)
Definition encode_input (opt : Opt) (label_map : Tensor Z)
    (inst_map : option (Tensor Z)) : Result (Tensor Z) :=
  input_label ←
    (if label_nc opt =? 0 then Ok label_map
     else
       let oneHot :=
         zeros (dimN label_map) (label_nc opt) (dimH label_map)
               (dimW label_map) in
       scatter_ oneHot label_map);
  if negb (no_instance opt) then
    match inst_map with
    | Some inst =>
        let edge_map := get_edges opt inst in
        cat1 input_label edge_map
    | None => Raise AttributeError
    end
  else Ok input_label.

(** Decoding, as the specification words it: the argmax across the channel
    dimension at each pixel (the first index holding the maximum, as
    [torch.argmax] documents for ties). *)
Definition argmax_step (t : Tensor Z) (n h w : nat) (best c : nat) : nat :=
  if (cell t n best h w <? cell t n c h w)%Z then c else best.

Definition argmax_channel (t : Tensor Z) (n h w : nat) : nat :=
  fold_left (argmax_step t n h w) (seq 0 (dimC t)) 0.

(** ** Feature subsystem *)

(** [for k in range(n): out[k] = f k], stopping at the first exception *)
Fixpoint mapR {A B : Type} (f : A -> Result B) (l : list A) : Result (list B) :=
  match l with
  | [] => Ok []
  | a :: l' => b ← f a; bs ← mapR f l'; Ok (b :: bs)
  end.

(** [idx[:,1] + k] *)
Definition shift_channel (k : nat) (ix : Idx) : Idx :=
  let '(n, c, h, w) := ix in (n, c + k, h, w).

(** [get_equiv_ID]: a Python function that falls off its end returns [None]. *)
Definition get_equiv_ID (ID : Z) : option Z :=
  if (ID =? 5)%Z then Some 1%Z
  else if (ID =? 22)%Z then Some 1%Z
  else None.

Section Features.

(** Feature values (floats). *)
Variable F : Type.
(** [x.half()] on one float. *)
Variable half : F -> F.
(** What [self.Tensor(n, c, h, w)] holds when it is handed out: torch does not
    initialise the storage, which is why [encode_input] and [get_edges] call
    [zero_()] on the tensors they allocate. *)
Variable uninit : nat -> nat -> nat -> nat -> F.
(** Component [j] of the vector drawn by call number [k] of [get_z_random]. *)
Variable z_random : nat -> nat -> F.
(** The raw value behind call number [k] of [np.random.randint]. *)
Variable draw : nat -> nat.
(** [self.netE.forward(image, inst)] *)
Variable netE_forward : Tensor F -> Tensor Z -> Tensor F.
(** [float(num) / d] for a non-zero [d]. *)
Variable fdiv : nat -> nat -> F.

(** [self.Tensor(N, C, H, W)] *)
Definition new_tensor (N C H W : nat) : Tensor F := mkTensor N C H W uninit.

(** [get_z_random(nz)] followed by [view(-1, nz)] *)
Definition get_z_random (call nz : nat) : Result (Array2 F) :=
  if nz =? 0 then Raise RuntimeError
  else Ok (mkArray2 nz [map (z_random call) (seq 0 nz)]).

(** [for k in range(feat_num):
       feat_map[idx[:,0], idx[:,1] + k, idx[:,2], idx[:,3]] = feat[r, k]] *)
Definition write_feature (opt : Opt) (feat : Array2 F) (r : nat)
    (idx : list Idx) (feat_map : Tensor F) : Result (Tensor F) :=
  foldM (fun fm k =>
           v ← arr_get feat r k;
           index_put fm (map (shift_channel k) idx) v)
        feat_map (seq 0 (feat_num opt)).

(** [feat_map.half()] when [data_type == 16] *)
Definition finish (opt : Opt) (feat_map : Tensor F) : Tensor F :=
  if (data_type opt =? 16)%Z then tmap half feat_map else feat_map.

(** One iteration of the loop of [broadcast_features]; the state is the
    feature map and the number of calls made to [get_z_random]. *)
Definition broadcast_body (opt : Opt) (avg_features : option (Array2 F))
    (features_dict : gmap Z (Array2 F)) (label_map : Tensor Z)
    (random from_avg : bool) (st : Tensor F * nat) (i : Z)
  : Result (Tensor F * nat) :=
  let '(feat_map, calls) := st in
  let label := class_of i in
  match features_dict !! label with
  | Some entry =>
      '(feat, calls') ←
        (if (label =? 6)%Z && random
         then feat ← get_z_random calls (ncols entry); Ok (feat, S calls)
         else Ok (entry, calls));
      let idx := nonzero (eq_scalar label_map i) in
      feat_map' ← write_feature opt feat 0 idx feat_map;
      Ok (feat_map', calls')
  | None =>
      if from_avg then
        avg ← match avg_features with
               | Some a => Ok a
               | None => Raise AttributeError
               end;
        feat ← arr_row avg label;
        let idx := nonzero (eq_scalar label_map i) in
        feat_map' ← write_feature opt feat 0 idx feat_map;
        Ok (feat_map', calls)
      else Ok st
  end.

Definition broadcast_features (opt : Opt) (avg_features : option (Array2 F))
    (features_dict : gmap Z (Array2 F)) (label_map : Tensor Z)
    (random from_avg : bool) : Result (Tensor F) :=
  let feat_map :=
    new_tensor (dimN label_map) (feat_num opt) (dimH label_map)
               (dimW label_map) in
  '(feat_map', _) ←
    foldM (broadcast_body opt avg_features features_dict label_map
                          random from_avg)
          (feat_map, 0) (np_unique (values label_map));
  Ok (finish opt feat_map').

(** One iteration of the loop of [sample_features]; the state is the feature
    map and the number of calls made to [np.random.randint]. *)
Definition sample_body (opt : Opt) (features_clustered : gmap Z (Array2 F))
    (inst : Tensor Z) (st : Tensor F * nat) (i : Z)
  : Result (Tensor F * nat) :=
  let '(feat_map, calls) := st in
  let label := class_of i in
  match features_clustered !! label with
  | Some feat =>
      if nrows feat =? 0 then Raise ValueError
      else
        let cluster_idx := draw calls mod nrows feat in
        let idx := nonzero (eq_scalar inst i) in
        feat_map' ← write_feature opt feat cluster_idx idx feat_map;
        Ok (feat_map', S calls)
  | None => Ok st
  end.

(** [features_clustered] is the dictionary read from [cluster_path]. *)
Definition sample_features (opt : Opt)
    (features_clustered : gmap Z (Array2 F)) (inst : Tensor Z)
  : Result (Tensor F) :=
  let feat_map :=
    new_tensor (dimN inst) (feat_num opt) (dimH inst) (dimW inst) in
  '(feat_map', _) ←
    foldM (sample_body opt features_clustered inst)
          (feat_map, 0) (np_unique (values inst));
  Ok (finish opt feat_map').

(** [for i in range(label_nc): feature[i] = np.zeros((0, feat_num+1))] *)
Definition empty_features (opt : Opt) : gmap Z (Array2 F) :=
  fold_left (fun feature i =>
               <[Z.of_nat i := np_zeros_0 (feat_num opt + 1)]> feature)
            (seq 0 (label_nc opt)) ∅.

(** The row [val] that [encode_features] computes for instance [i]: the
    features at the median-indexed pixel, then the scaled pixel count. *)
Definition instance_row (opt : Opt) (feat_map : Tensor F) (inst : Tensor Z)
    (i : Z) : Result (list F) :=
  let idx := nonzero (eq_scalar inst i) in
  let num := length idx in
  ix ← match nth_error idx (num / 2) with
        | Some ix => Ok ix
        | None => Raise IndexError
        end;
  val ← mapR (fun k => tget feat_map (shift_channel k ix))
             (seq 0 (feat_num opt));
  let block_num := 32 in
  let d := dimH inst * dimW inst / block_num in
  if d =? 0 then Raise ZeroDivisionError
  else Ok (val ++ [fdiv num d]).

(** One iteration of the second loop of [encode_features]. *)
Definition encode_body (opt : Opt) (feat_map : Tensor F) (inst : Tensor Z)
    (feature : gmap Z (Array2 F)) (i : Z) : Result (gmap Z (Array2 F)) :=
  let label := class_of i in
  val ← instance_row opt feat_map inst i;
  match feature !! label with
  | Some a =>
      a' ← np_append a (mkArray2 (feat_num opt + 1) [val]);
      Ok (<[label := a']> feature)
  | None => Raise KeyError
  end.

Definition encode_features (opt : Opt) (image : Tensor F) (inst : Tensor Z)
  : Result (gmap Z (Array2 F)) :=
  let feat_map := netE_forward image inst in
  foldM (encode_body opt feat_map inst) (empty_features opt)
        (np_unique (values inst)).

(** *** The swap, on a heap of tensors *)

Inductive obj : Type :=
| LabelMap (t : Tensor Z)
| FeatMap (t : Tensor F).

(** A reference that does not hold a tensor of the expected kind has no
    attribute the code asks for. *)
Definition read_label (σ : gmap nat obj) (l : nat) : Result (Tensor Z) :=
  match σ !! l with
  | Some (LabelMap t) => Ok t
  | _ => Raise AttributeError
  end.

Definition read_feat (σ : gmap nat obj) (l : nat) : Result (Tensor F) :=
  match σ !! l with
  | Some (FeatMap t) => Ok t
  | _ => Raise AttributeError
  end.

(** [t[s[0], :, s[2], s[3]]]: a fresh vector with one entry per channel *)
Definition pixel_vector (t : Tensor F) (s : Idx) : Result (list F) :=
  let '(n, _, h, w) := s in
  if (n <? dimN t) && (h <? dimH t) && (w <? dimW t)
  then Ok (map (fun c => cell t n c h w) (seq 0 (dimC t)))
  else Raise IndexError.

(** Entry [c] of [vec] broadcast to [C] channels. *)
Definition broadcast_entry (vec : list F) (c : nat) : option F :=
  nth_error vec (if length vec =? 1 then 0 else c).

(** The write of one row [ix] of the index matrix: all channels of the pixel. *)
Definition put_pixel (vec : list F) (t : Tensor F) (ix : Idx)
  : Result (Tensor F) :=
  let '(n, _, h, w) := ix in
  if (n <? dimN t) && (h <? dimH t) && (w <? dimW t)
  then Ok (mkTensor (dimN t) (dimC t) (dimH t) (dimW t)
             (fun n' c' h' w' =>
                if (n' =? n) && (h' =? h) && (w' =? w) && (c' <? dimC t)
                then match broadcast_entry vec c' with
                     | Some v => v
                     | None => cell t n' c' h' w'
                     end
                else cell t n' c' h' w'))
  else Raise IndexError.

(** [t[all_indices[0], :, all_indices[2], all_indices[3]] = vec]; the value
    must broadcast to the shape (rows, channels). *)
Definition put_pixels (t : Tensor F) (all_indices : list Idx) (vec : list F)
  : Result (Tensor F) :=
  if (length vec =? dimC t) || (length vec =? 1)
  then foldM (put_pixel vec) t all_indices
  else Raise RuntimeError.

(** The body of [swap_features] up to its last statement: the checks, and
    the contents the indexed assignment gives the condition feature map. *)
Definition swapped_map (swapID : Z)
    (condition_feat_map reference_feat_map condition_label reference_label
       : nat)
    (σ : gmap nat obj) : Result (Tensor F) :=
  cl ← read_label σ condition_label;
  let inst_list := np_unique (values cl) in
  _ ← py_assert (py_in swapID inst_list);
  rl ← read_label σ reference_label;
  let inst_list := np_unique (values rl) in
  let equivID :=
    if negb (py_in swapID inst_list) then get_equiv_ID swapID
    else Some swapID in
  match equivID with
  | None => Raise AssertionError
  | Some equivID =>
      _ ← py_assert (py_in equivID inst_list);
      let condition_indices := nonzero (eq_scalar (first_sample cl) swapID) in
      let reference_indices := nonzero (eq_scalar (first_sample rl) equivID) in
      let all_indices := condition_indices in
      sample_indices ← match nth_error reference_indices 0 with
                        | Some s => Ok s
                        | None => Raise IndexError
                        end;
      rfm ← read_feat σ reference_feat_map;
      vec ← pixel_vector rfm sample_indices;
      cfm ← read_feat σ condition_feat_map;
      put_pixels cfm all_indices vec
  end.

(** [swap_features] returns nothing; it acts on the heap.  The indexed
    assignment is its only write, so a call that raises leaves the heap as it
    found it. *)
Definition swap_features (swapID : Z)
    (condition_feat_map reference_feat_map condition_label reference_label
       : nat)
    (σ : gmap nat obj) : gmap nat obj * Result unit :=
  match swapped_map swapID condition_feat_map reference_feat_map
                    condition_label reference_label σ with
  | Ok cfm' => (<[condition_feat_map := FeatMap cfm']> σ, Ok tt)
  | Raise e => (σ, Raise e)
  end.

End Features.

Arguments LabelMap {F} t.
Arguments FeatMap {F} t.

(** ** Notions used in the statements *)

(** Pixel [(h, w)] of plane [(n, c)] has a horizontal or vertical neighbour
    inside the map whose instance id differs from its own. *)
Definition has_other_neighbour (t : Tensor Z) (n c h w : nat) : Prop :=
  (1 <= w /\ cell t n c h (w - 1) <> cell t n c h w)
  \/ (w + 1 < dimW t /\ cell t n c h (w + 1) <> cell t n c h w)
  \/ (1 <= h /\ cell t n c (h - 1) w <> cell t n c h w)
  \/ (h + 1 < dimH t /\ cell t n c (h + 1) w <> cell t n c h w).

(** Some entry of [index] among the rows [l] sends 1.0 to cell
    [(n, k, h, w)]. *)
Definition scatter_hit (index : Tensor Z) (l : list Idx) (n k h w : nat)
  : bool :=
  existsb (fun ix =>
             let '(n', _, h', w') := ix in
             (n' =? n) && (h' =? h) && (w' =? w)
             && (at_ index ix =? Z.of_nat k)%Z) l.

(** Row [(n, _, h, w)] occurs among the rows [l] of an index matrix. *)
Definition pixel_hit (l : list Idx) (n h w : nat) : bool :=
  existsb (fun ix =>
             let '(n', _, h', w') := ix in
             (n' =? n) && (h' =? h) && (w' =? w)) l.

(** The class whose pixels the swap reads in the reference map: [swapID]
    itself when the reference map holds it, else its entry in the
    equivalence table. *)
Definition resolved_class (swapID : Z) (reference_label : Tensor Z)
  : option Z :=
  if negb (py_in swapID (np_unique (values reference_label)))
  then get_equiv_ID swapID
  else Some swapID.

(** The feature map has the batch and spatial sizes of the label map. *)
Definition same_plane {A B : Type} (fm : Tensor A) (lm : Tensor B) : Prop :=
  dimN fm = dimN lm /\ dimH fm = dimH lm /\ dimW fm = dimW lm.

(** Cell [(n, c, h, w)] of the feature map stored at [l]. *)
Definition feat_cell {F : Type} (σ : gmap nat (obj F)) (l : nat)
    (n c h w : nat) : option F :=
  match σ !! l with
  | Some (FeatMap t) => Some (cell t n c h w)
  | _ => None
  end.

(** Example heap: both label maps are one row of two pixels of class 5; the
    feature maps have one channel; the reference features are 10.0 and
    20.0. *)
Definition ex_labels : Tensor Z := mkTensor 1 1 1 2 (fun _ _ _ _ => 5%Z).
Definition ex_tshirt_labels : Tensor Z :=
  mkTensor 1 1 1 2 (fun _ _ _ _ => 1%Z).
Definition ex_pants_labels : Tensor Z :=
  mkTensor 1 1 1 2 (fun _ _ _ _ => 13%Z).
Definition ex_cond_feats : Tensor Z := mkTensor 1 1 1 2 (fun _ _ _ _ => 0%Z).
Definition ex_ref_feats : Tensor Z :=
  mkTensor 1 1 1 2 (fun _ _ _ w => if w =? 0 then 10%Z else 20%Z).
Definition ex_heap : gmap nat (obj Z) :=
  <[0 := FeatMap ex_cond_feats]>
    (<[1 := FeatMap ex_ref_feats]>
       (<[2 := LabelMap ex_labels]>
          (<[3 := LabelMap ex_labels]>
             (<[4 := LabelMap ex_tshirt_labels]>
                (<[5 := LabelMap ex_pants_labels]> ∅))))).


(** The row that [encode_features] files for instance [i], when it computes
    one. *)
Definition row_of {F : Type} (fdiv : nat -> nat -> F) (opt : Opt)
    (feat_map : Tensor F) (inst : Tensor Z) (i : Z) : list F :=
  match instance_row F fdiv opt feat_map inst i with
  | Ok val => val
  | Raise _ => []
  end.

(** The distinct instance values of class [k], in increasing order. *)
Definition instances_of_class (inst : Tensor Z) (k : Z) : list Z :=
  List.filter (fun i => (class_of i =? k)%Z) (np_unique (values inst)).

(** Two pixels of the map that hold the same value, and whose cells of
    channel [k] were equal in the storage [base], have equal cells of channel
    [k] in [fm]. *)
Definition agrees_on_labels {F : Type} (label_map : Tensor Z)
    (base : nat -> nat -> nat -> nat -> F) (fm : Tensor F) : Prop :=
  forall n h w n' h' w' k,
    n < dimN label_map -> h < dimH label_map -> w < dimW label_map ->
    n' < dimN label_map -> h' < dimH label_map -> w' < dimW label_map ->
    cell label_map n 0 h w = cell label_map n' 0 h' w' ->
    base n k h w = base n' k h' w' ->
    cell fm n k h w = cell fm n' k h' w'.

(** The pixels whose class has no entry in [dict] hold in [fm] what the
    storage [base] held. *)
Definition untouched_outside {F : Type} (label_map : Tensor Z)
    (dict : gmap Z (Array2 F)) (base : nat -> nat -> nat -> nat -> F)
    (fm : Tensor F) : Prop :=
  forall n k h w,
    n < dimN label_map -> h < dimH label_map -> w < dimW label_map ->
    dict !! class_of (cell label_map n 0 h w) = None ->
    cell fm n k h w = base n k h w.

(** Example broadcast: a map of one row of two pixels of class 3, a feature
    map of one channel, an empty dictionary, and storage that holds 7.0 and
    8.0 when the allocator hands it out. *)
Definition ex_opt : Opt := mkOpt 6 1 true 32.
Definition ex_map3 : Tensor Z := mkTensor 1 1 1 2 (fun _ _ _ _ => 3%Z).
Definition ex_storage (n c h w : nat) : Z := (Z.of_nat w + 7)%Z.
Definition ex_broadcast : Result (Tensor Z) :=
  broadcast_features Z (fun x => x) ex_storage (fun _ _ => 0%Z) ex_opt None
                     ∅ ex_map3 false false.
Definition ex_sample : Result (Tensor Z) :=
  sample_features Z (fun x => x) ex_storage (fun _ => 0) ex_opt ∅ ex_map3.

(** Example input of the encoder: instance ids 0 and 1 side by side, with
    instance maps enabled. *)
Definition ex_opt_inst : Opt := mkOpt 6 1 false 32.
Definition ex_inst : Tensor Z :=
  mkTensor 1 1 1 2 (fun _ _ _ w => Z.of_nat w).

(** Example input of [encode_features]: a map of 4 x 8 pixels of class 5, an
    encoder that returns its image, and integer division for the floats. *)
Definition ex_inst32 : Tensor Z := mkTensor 1 1 4 8 (fun _ _ _ _ => 5%Z).
Definition ex_image : Tensor Z :=
  mkTensor 1 1 4 8 (fun _ _ h w => Z.of_nat (h * 8 + w)).
Definition ex_netE (image : Tensor Z) (inst : Tensor Z) : Tensor Z := image.
Definition ex_fdiv (num d : nat) : Z := Z.of_nat (num / d).
Definition ex_dict : gmap Z (Array2 Z) :=
  match encode_features Z ex_netE ex_fdiv ex_opt ex_image ex_inst32 with
  | Ok feature => feature
  | Raise _ => ∅
  end.


(** ** Loss names and loss terms ([initialize], [forward]) *)

(** The seven names handed to the loss filter by [initialize]. *)
Inductive loss_name : Set :=
| G_GAN_Encode
| G_GAN_Feat
| G_VGG
| G_STYLE_VGG
| G_RECON
| D_real
| D_fake.

(** The loss flags of the options. *)
Record LossOpt : Set := mkLossOpt {
  no_ganFeat_loss : bool;
  no_vgg_loss : bool;
  no_style_loss : bool;
  no_recon_loss : bool
}.

(** [self.loss_filter], as [initialize] builds it. *)
Definition loss_filter {L : Type} (o : LossOpt) : L -> L -> L -> L -> L -> L -> L -> list L :=
  init_loss_filter (negb (no_ganFeat_loss o)) (negb (no_vgg_loss o))
                   (negb (no_style_loss o)) (negb (no_recon_loss o)).

(** [self.loss_names] *)
Definition loss_names (o : LossOpt) : list loss_name :=
  loss_filter o G_GAN_Encode G_GAN_Feat G_VGG G_STYLE_VGG G_RECON D_real D_fake.

(** A loss term of [forward]: the integer 0 a term is initialised with, or a
    tensor, of which the model keeps the value and how many times
    [unsqueeze(0)] was applied to it. *)
Inductive loss_term (V : Type) : Type :=
| IntZero
| LossTensor (unsqueezed : nat) (v : V).

Arguments IntZero {V}.
Arguments LossTensor {V} unsqueezed v.

(** [l.unsqueeze(0)]; an [int] has no such attribute. *)
Definition unsqueeze0 {V : Type} (l : loss_term V) : Result (loss_term V) :=
  match l with
  | IntZero => Raise AttributeError
  | LossTensor r v => Ok (LossTensor (S r) v)
  end.

(** The assembly of the loss list in [forward], lines 204 to 255.  The results
    of the criteria, already weighted, are arguments: [d_fake], [d_real] and
    [g_gan] from [criterionGAN]; [feat_sum], the accumulated feature-matching
    loss, [IntZero] when the two loops add no term; [vgg] and [style] from
    [criterionVGG]; [recon] from [criterionRecon]. *)
Definition forward_losses {V : Type} (o : LossOpt)
    (d_fake d_real g_gan : V) (feat_sum : loss_term V) (vgg style recon : V)
  : Result (list (loss_term V)) :=
  loss_D_fake ← unsqueeze0 (LossTensor 0 d_fake);
  loss_D_real ← unsqueeze0 (LossTensor 0 d_real);
  loss_G_GAN ← unsqueeze0 (LossTensor 0 g_gan);
  loss_G_GAN_Feat ←
    (if negb (no_ganFeat_loss o) then unsqueeze0 feat_sum else Ok IntZero);
  '(loss_G_VGG, loss_G_style_VGG) ←
    (if negb (no_style_loss o) then
       loss_G_style_VGG ← unsqueeze0 (LossTensor 0 style);
       Ok (LossTensor 0 vgg, loss_G_style_VGG)
     else if negb (no_vgg_loss o) then
       loss_G_VGG ← unsqueeze0 (LossTensor 0 vgg);
       loss_G_VGG ← unsqueeze0 loss_G_VGG;
       Ok (loss_G_VGG, IntZero)
     else Ok (IntZero, IntZero));
  loss_G_recon ←
    (if negb (no_recon_loss o) then unsqueeze0 (LossTensor 0 recon)
     else Ok IntZero);
  Ok (loss_filter o loss_G_GAN loss_G_GAN_Feat loss_G_VGG loss_G_style_VGG
                  loss_G_recon loss_D_real loss_D_fake).

(** Example dictionaries for the map of two pixels of class 3: one entry of
    one row, one cluster array of two rows, one table of averages. *)
Definition ex_entry3 : Array2 Z := mkArray2 1 [[9%Z]].
Definition ex_dict3 : gmap Z (Array2 Z) := <[3%Z := ex_entry3]> ∅.
Definition ex_clusters3 : Array2 Z := mkArray2 1 [[9%Z]; [11%Z]].
Definition ex_cluster_dict3 : gmap Z (Array2 Z) := <[3%Z := ex_clusters3]> ∅.
Definition ex_avg : Array2 Z := mkArray2 1 [[0%Z]; [1%Z]; [2%Z]; [3%Z]].
Definition ex_out (r : Result (Tensor Z)) : Tensor Z :=
  match r with
  | Ok fm => fm
  | Raise _ => ex_map3
  end.

(** The entries of a dictionary under construction in [encode_features] have
    feat_num+1 columns and sit exactly at the keys 0 .. label_nc-1. *)
Definition keys_ok {F : Type} (opt : Opt) (feature : gmap Z (Array2 F))
  : Prop :=
  forall k,
    match feature !! k with
    | Some a => ncols a = feat_num opt + 1
                /\ (0 <= k < Z.of_nat (label_nc opt))%Z
    | None => ~ (0 <= k < Z.of_nat (label_nc opt))%Z
    end.

(** ** [simple_encode_features] *)

Section SimpleEncode.
Variable F : Type.
Variable netE_forward : Tensor F -> Tensor Z -> Tensor F.

(** One iteration of the loop of [simple_encode_features]: the feature vector
    at the first pixel of instance [i], with a leading dimension of size 1,
    filed under [i] itself. *)
Definition simple_encode_body (feat_map : Tensor F) (inst : Tensor Z)
    (feature : gmap Z (Array2 F)) (i : Z) : Result (gmap Z (Array2 F)) :=
  let indices := nonzero (eq_scalar inst i) in
  if 0 <? length indices then
    match nth_error indices 0 with
    | Some s =>
        vec ← pixel_vector F feat_map s;
        Ok (<[i := mkArray2 (length vec) [vec]]> feature)
    | None => Raise IndexError
    end
  else Ok feature.

Definition simple_encode_features (image : Tensor F) (inst : Tensor Z)
  : Result (gmap Z (Array2 F)) :=
  let feat_map := netE_forward image inst in
  foldM (simple_encode_body feat_map inst) ∅ (np_unique (values inst)).

End SimpleEncode.

(** The entry that [simple_encode_features] files for instance [i]: the
    channels of the feature map at the first pixel of the instance. *)
Definition first_pixel_entry {F : Type} (feat_map : Tensor F)
    (inst : Tensor Z) (i : Z) : Array2 F :=
  match nonzero (eq_scalar inst i) with
  | (n, _, h, w) :: _ =>
      mkArray2 (dimC feat_map)
        [map (fun c => cell feat_map n c h w) (seq 0 (dimC feat_map))]
  | [] => mkArray2 0 []
  end.

(** Example heap with a batch of two samples: the label map at address 6
    holds class 13 in its first sample and class 5 in its second; the
    feature map at address 0 has two samples. *)
Definition ex_batch_labels : Tensor Z :=
  mkTensor 2 1 1 2 (fun n _ _ _ => if n =? 0 then 13%Z else 5%Z).
Definition ex_cond_feats2 : Tensor Z :=
  mkTensor 2 1 1 2 (fun _ _ _ _ => 0%Z).
Definition ex_heap2 : gmap nat (obj Z) :=
  <[0 := FeatMap ex_cond_feats2]>
    (<[1 := FeatMap ex_ref_feats]>
       (<[2 := LabelMap ex_labels]>
          (<[6 := LabelMap ex_batch_labels]> ∅))).

(** A second reference feature map: as [ex_ref_feats] at the first pixel,
    different at the second. *)
Definition ex_ref_feats' : Tensor Z :=
  mkTensor 1 1 1 2 (fun _ _ _ w => if w =? 0 then 10%Z else 30%Z).

(** ** Network sizes ([initialize]) and the generator input of the inference
    methods *)

(** The options read by [initialize] and the inference methods, beside those
    of [Opt]. *)
Record NetOpt : Set := mkNetOpt {
  base : Opt;
  input_nc : nat;
  output_nc : nat;
  instance_feat : bool;
  label_feat : bool
}.

(** [self.use_features = opt.instance_feat or opt.label_feat] *)
Definition use_features (o : NetOpt) : bool :=
  instance_feat o || label_feat o.

(** [input_nc = opt.label_nc if opt.label_nc != 0 else opt.input_nc] *)
Definition net_input_nc (o : NetOpt) : nat :=
  if negb (label_nc (base o) =? 0) then label_nc (base o) else input_nc o.

(** The number of input channels the generator is built with. *)
Definition netG_input_nc (o : NetOpt) : nat :=
  let n := net_input_nc o in
  let n := if negb (no_instance (base o)) then n + 1 else n in
  if use_features o then n + feat_num (base o) else n.

(** The number of input channels the discriminator is built with. *)
Definition netD_input_nc (o : NetOpt) : nat :=
  let n := net_input_nc o + output_nc o in
  if negb (no_instance (base o)) then n + 1 else n.

Section Inference.
Variable F : Type.
Variable half : F -> F.
Variable uninit : nat -> nat -> nat -> nat -> F.
Variable z_random : nat -> nat -> F.
Variable draw : nat -> nat.
Variable netE_forward : Tensor F -> Tensor Z -> Tensor F.
(** [self.netG.forward] *)
Variable netG_forward : Tensor F -> Tensor F.
(** The float holding an integer of the encoded label tensor. *)
Variable of_label : Z -> F.

(** [input_concat] of [inference_given_feature]: what the generator is
    run on. *)
Definition inference_given_feature_input (o : NetOpt)
    (avg_features : option (Array2 F)) (label inst : Tensor Z)
    (features : gmap Z (Array2 F)) (random from_avg : bool)
  : Result (Tensor F) :=
  input_label ← encode_input (base o) label (Some inst);
  if use_features o then
    feat_map ← broadcast_features F half uninit z_random (base o)
                 avg_features features label random from_avg;
    cat1 (tmap of_label input_label) feat_map
  else Ok (tmap of_label input_label).

Definition inference_given_feature (o : NetOpt)
    (avg_features : option (Array2 F)) (label inst : Tensor Z)
    (features : gmap Z (Array2 F)) (random from_avg : bool)
  : Result (Tensor F) :=
  input_concat ← inference_given_feature_input o avg_features label inst
                   features random from_avg;
  Ok (netG_forward input_concat).

(** [input_concat] of [inference]; [features_clustered] is the dictionary
    read by [sample_features]. *)
Definition inference_input (o : NetOpt)
    (features_clustered : gmap Z (Array2 F)) (label inst : Tensor Z)
  : Result (Tensor F) :=
  input_label ← encode_input (base o) label (Some inst);
  if use_features o then
    feat_map ← sample_features F half uninit draw (base o)
                 features_clustered inst;
    cat1 (tmap of_label input_label) feat_map
  else Ok (tmap of_label input_label).

Definition inference (o : NetOpt) (features_clustered : gmap Z (Array2 F))
    (label inst : Tensor Z) : Result (Tensor F) :=
  input_concat ← inference_input o features_clustered label inst;
  Ok (netG_forward input_concat).

(** [input_concat] of [discriminate] (before the image pool). *)
Definition discriminate_input (input_label test_image : Tensor F)
  : Result (Tensor F) :=
  cat1 input_label test_image.

(** The heap on which [condition_inference] calls [swap_features]: the two
    feature maps returned by the encoder and the two label maps. *)
Definition swap_heap (condition_feat_map reference_feat_map : Tensor F)
    (condition_label reference_label : Tensor Z) : gmap nat (obj F) :=
  <[0 := FeatMap condition_feat_map]>
    (<[1 := FeatMap reference_feat_map]>
       (<[2 := LabelMap condition_label]>
          (<[3 := LabelMap reference_label]> ∅))).

(** [input_concat] of [condition_inference]; [condition_img] is [None] when
    the caller passes no condition image. *)
Definition condition_inference_input (o : NetOpt)
    (condition_label reference_label condition_inst reference_inst
       : Tensor Z)
    (condition_img : option (Tensor F)) (reference_img : Tensor F)
    (swapID : Z) : Result (Tensor F) :=
  input_label ← encode_input (base o) reference_label (Some reference_inst);
  let reference_feat_map := netE_forward reference_img reference_label in
  match condition_img with
  | Some condition_img =>
      input_label ←
        encode_input (base o) condition_label (Some condition_inst);
      let condition_feat_map := netE_forward condition_img condition_label in
      let σ := swap_heap condition_feat_map reference_feat_map
                         condition_label reference_label in
      match swap_features F swapID 0 1 2 3 σ with
      | (σ', Ok _) =>
          condition_feat_map ← read_feat F σ' 0;
          cat1 (tmap of_label input_label) condition_feat_map
      | (_, Raise e) => Raise e
      end
  | None => cat1 (tmap of_label input_label) reference_feat_map
  end.

Definition condition_inference (o : NetOpt)
    (condition_label reference_label condition_inst reference_inst
       : Tensor Z)
    (condition_img : option (Tensor F)) (reference_img : Tensor F)
    (swapID : Z) : Result (Tensor F) :=
  input_concat ← condition_inference_input o condition_label reference_label
                   condition_inst reference_inst condition_img reference_img
                   swapID;
  Ok (netG_forward input_concat).

End Inference.

(** Example options of a model with label features: six classes, instance
    maps enabled, one feature channel, three image channels. *)
Definition ex_net_opt : NetOpt := mkNetOpt ex_opt_inst 3 3 false true.

(** ** Learning-rate schedule *)

Section LearningRate.
(** Floats, float subtraction, and the division of a float by an integer
    other than zero. *)
Variable F : Type.
Variable fsub : F -> F -> F.
Variable fdiv_int : F -> Z -> F.
(** What a parameter group holds beside its learning rate. *)
Variable R : Type.

(** A parameter group of an optimizer: the entry ['lr'] and the rest. *)
Record param_group : Type := mkParamGroup {
  pg_lr : F;
  pg_rest : R
}.

(** The state the two methods act on. *)
Record Schedule : Type := mkSchedule {
  old_lr : F;
  optimizer_D : list param_group;
  optimizer_G : list param_group
}.

(** [param_group['lr'] = lr] *)
Definition set_lr (lr : F) (pg : param_group) : param_group :=
  mkParamGroup lr (pg_rest pg).

(** [update_learning_rate]; [opt_lr] is [opt.lr], [niter_decay] is
    [opt.niter_decay]. *)
Definition update_learning_rate (opt_lr : F) (niter_decay : Z)
    (s : Schedule) : Result Schedule :=
  if (niter_decay =? 0)%Z then Raise ZeroDivisionError
  else
    let lrd := fdiv_int opt_lr niter_decay in
    let lr := fsub (old_lr s) lrd in
    Ok (mkSchedule lr (map (set_lr lr) (optimizer_D s))
                   (map (set_lr lr) (optimizer_G s))).

Definition set_continue_learning_rate (lr : F) (s : Schedule) : Schedule :=
  mkSchedule lr (map (set_lr lr) (optimizer_D s))
             (map (set_lr lr) (optimizer_G s)).

(** [n] calls of [update_learning_rate] in a row. *)
Fixpoint update_learning_rate_n (opt_lr : F) (niter_decay : Z) (n : nat)
    (s : Schedule) : Result Schedule :=
  match n with
  | 0 => Ok s
  | S n' =>
      s' ← update_learning_rate opt_lr niter_decay s;
      update_learning_rate_n opt_lr niter_decay n' s'
  end.

(** Every parameter group of both optimizers carries the tracked rate. *)
Definition in_sync (s : Schedule) : Prop :=
  forall pg, In pg (optimizer_D s ++ optimizer_G s) -> pg_lr pg = old_lr s.

End LearningRate.
(** * Properties *)

(** ** The result monad *)

Lemma bind_Ok {A B : Type} (r : Result A) (k : A -> Result B) (b : B) :
  r ≫= k = Ok b -> exists a, r = Ok a /\ k a = Ok b.
Proof. destruct r as [a|e]; simpl; [eauto | discriminate]. Qed.

Lemma py_assert_Ok (b : bool) (u : unit) : py_assert b = Ok u -> b = true.
Proof. destruct b; [reflexivity | discriminate]. Qed.

(** Inverts hypotheses of the form [(x ← r; k) = Ok b]. *)
Ltac inv_bind H :=
  let a := fresh "a" in
  let Ha := fresh "Ha" in
  apply bind_Ok in H; destruct H as (a & Ha & H).

(** An invariant kept by every iteration holds when the loop returns. *)
Lemma foldM_invariant {A B : Type} (P : B -> Prop) (f : B -> A -> Result B)
    (l : list A) (b b' : B) :
  (forall x y z, In y l -> P x -> f x y = Ok z -> P z) ->
  P b -> foldM f b l = Ok b' -> P b'.
Proof.
  revert b. induction l as [|y l IH]; simpl; intros b Hstep Hb Hrun.
  - injection Hrun as <-. exact Hb.
  - inv_bind Hrun. apply (IH a); eauto.
Qed.

(** ** Loss filter *)

Lemma init_loss_filter_shape {L : Type} (f v s r : bool) (a b c d e x y : L) :
  init_loss_filter f v s r a b c d e x y
  = a :: aux_terms f v s r b c d e ++ [x; y].
Proof. destruct f, v, s, r; reflexivity. Qed.

(** C9, as stated, fails: the style flag is a flag of its own, and with it
    enabled the list has four elements although the feature-matching,
    perceptual and reconstruction flags are all disabled. *)
Lemma C9_style_flag_counterexample :
  init_loss_filter false false true false 1 2 3 4 5 6 7 = [1; 4; 6; 7]
  /\ length (init_loss_filter false false true false 1 2 3 4 5 6 7) <> 3.
Proof. split; [reflexivity | discriminate]. Qed.

(** C9 (amended): with the feature-matching, perceptual, style and
    reconstruction flags all disabled the loss filter returns exactly the
    adversarial generator loss, the real discriminator loss and the fake
    discriminator loss, in this order (length 3); with the feature-matching,
    perceptual and reconstruction flags disabled the style term alone may
    stand between them; and for every flag configuration the list starts with
    the generator loss and ends with the two discriminator losses. *)
Theorem C9_loss_filter {L : Type} (a b c d e x y : L) :
  init_loss_filter false false false false a b c d e x y = [a; x; y]
  /\ length (init_loss_filter false false false false a b c d e x y) = 3
  /\ (forall s : bool,
        init_loss_filter false false s false a b c d e x y
        = a :: (if s then [d] else []) ++ [x; y])
  /\ (forall f v s r : bool,
        exists mid : list L,
          init_loss_filter f v s r a b c d e x y = a :: mid ++ [x; y]
          /\ length mid <= 4).
Proof.
  repeat split; try reflexivity.
  - intros s. destruct s; reflexivity.
  - intros f v s r. exists (aux_terms f v s r b c d e). split.
    + apply init_loss_filter_shape.
    + destruct f, v, s, r; simpl; lia.
Qed.

(** ** Edge map *)

Lemma get_edges_cell (opt : Opt) (t : Tensor Z) (n c h w : nat) :
  cell (get_edges opt t) n c h w = Z.b2z (cell (edge_mask t) n c h w).
Proof. unfold get_edges. destruct (data_type opt =? 16)%Z; reflexivity. Qed.

Lemma get_edges_dims (opt : Opt) (t : Tensor Z) :
  dimN (get_edges opt t) = dimN t /\ dimC (get_edges opt t) = dimC t
  /\ dimH (get_edges opt t) = dimH t /\ dimW (get_edges opt t) = dimW t.
Proof. unfold get_edges. destruct (data_type opt =? 16)%Z; auto. Qed.

Lemma edge_mask_true (t : Tensor Z) (n c h w : nat) :
  h < dimH t -> w < dimW t ->
  cell (edge_mask t) n c h w = true <-> has_other_neighbour t n c h w.
Proof.
  intros Hh Hw.
  unfold has_other_neighbour, edge_mask, edges_down, edges_up, edges_right,
    edges_left, zero_mask.
  cbn [cell dimN dimC dimH dimW].
  repeat match goal with
         | |- context [?a <=? ?b] => destruct (Nat.leb_spec a b)
         | |- context [?a <? ?b] => destruct (Nat.ltb_spec a b)
         | |- context [(?a =? ?b)%Z] => destruct (Z.eqb_spec a b)
         end; simpl; split; intros Hx; try discriminate; try reflexivity;
    try (exfalso; lia);
    try (first [ left; split; [lia | congruence]
               | right; left; split; [lia | congruence]
               | right; right; left; split; [lia | congruence]
               | right; right; right; split; [lia | congruence] ]);
    try (destruct Hx as [[? ?]|[[? ?]|[[? ?]|[? ?]]]]; try lia; congruence).
Qed.

(** C8: the edge map has the sizes of the instance map, and marks a pixel
    (with 1.0, otherwise 0.0) exactly when one of its horizontal or vertical
    neighbours inside the map has a different instance id; hence two adjacent
    pixels that disagree are both marked. *)
Theorem C8_get_edges_symmetric (opt : Opt) (t : Tensor Z) (n c h w : nat) :
  h < dimH t -> w < dimW t ->
  (dimN (get_edges opt t) = dimN t /\ dimC (get_edges opt t) = dimC t
   /\ dimH (get_edges opt t) = dimH t /\ dimW (get_edges opt t) = dimW t)
  /\ (h < dimH (get_edges opt t) /\ w < dimW (get_edges opt t))
  /\ (cell (get_edges opt t) n c h w = 1%Z <-> has_other_neighbour t n c h w)
  /\ (cell (get_edges opt t) n c h w = 0%Z
      <-> ~ has_other_neighbour t n c h w)
  /\ (w + 1 < dimW t -> cell t n c h w <> cell t n c h (w + 1) ->
      cell (get_edges opt t) n c h w = 1%Z
      /\ cell (get_edges opt t) n c h (w + 1) = 1%Z)
  /\ (h + 1 < dimH t -> cell t n c h w <> cell t n c (h + 1) w ->
      cell (get_edges opt t) n c h w = 1%Z
      /\ cell (get_edges opt t) n c (h + 1) w = 1%Z).
Proof.
  intros Hh Hw.
  assert (Hb : forall h' w', h' < dimH t -> w' < dimW t ->
            cell (get_edges opt t) n c h' w' = 1%Z
            <-> has_other_neighbour t n c h' w').
  { intros h' w' Hh' Hw'. rewrite get_edges_cell.
    rewrite <- (edge_mask_true t n c h' w' Hh' Hw').
    destruct (cell (edge_mask t) n c h' w'); simpl; split; congruence. }
  split; [apply get_edges_dims|].
  split.
  { destruct (get_edges_dims opt t) as (_ & _ & -> & ->). split; assumption. }
  split; [apply Hb; assumption|]. split.
  - rewrite <- (Hb h w Hh Hw), get_edges_cell.
    destruct (cell (edge_mask t) n c h w); simpl; split; congruence.
  - split; intros Hn Hd; split; apply Hb; try assumption;
      unfold has_other_neighbour.
    + right. left. split; [assumption | congruence].
    + left. split; [lia|]. replace (w + 1 - 1) with w by lia. assumption.
    + right. right. right. split; [assumption | congruence].
    + right. right. left. split; [lia|].
      replace (h + 1 - 1) with h by lia. assumption.
Qed.

(** ** Coordinates, [nonzero] and [np.unique] *)

Lemma in_coords (N C H W n c h w : nat) :
  In (n, c, h, w) (coords N C H W) <-> n < N /\ c < C /\ h < H /\ w < W.
Proof.
  unfold coords. rewrite in_flat_map. split.
  - intros (n' & Hn & H1). apply in_flat_map in H1 as (c' & Hc & H2).
    apply in_flat_map in H2 as (h' & Hh & H3).
    apply in_map_iff in H3 as (w' & Heq & Hw).
    injection Heq as -> -> -> ->.
    apply in_seq in Hn, Hc, Hh, Hw. lia.
  - intros (Hn & Hc & Hh & Hw). exists n. split; [apply in_seq; lia|].
    apply in_flat_map. exists c. split; [apply in_seq; lia|].
    apply in_flat_map. exists h. split; [apply in_seq; lia|].
    apply in_map_iff. exists w. split; [reflexivity | apply in_seq; lia].
Qed.

Lemma in_coords_of {A : Type} (t : Tensor A) (ix : Idx) :
  In ix (coords_of t) <-> in_bounds t ix = true.
Proof.
  destruct ix as [[[n c] h] w]. unfold coords_of, in_bounds.
  rewrite in_coords, !andb_true_iff, !Nat.ltb_lt. tauto.
Qed.

Lemma in_nonzero (m : Tensor bool) (ix : Idx) :
  In ix (nonzero m) <-> in_bounds m ix = true /\ at_ m ix = true.
Proof. unfold nonzero. rewrite filter_In, in_coords_of. tauto. Qed.

Lemma in_nonzero_eq (t : Tensor Z) (i : Z) (n c h w : nat) :
  In (n, c, h, w) (nonzero (eq_scalar t i))
  <-> (n < dimN t /\ c < dimC t /\ h < dimH t /\ w < dimW t)
      /\ cell t n c h w = i.
Proof.
  rewrite in_nonzero. unfold in_bounds, eq_scalar. simpl.
  rewrite !andb_true_iff, !Nat.ltb_lt, Z.eqb_eq. tauto.
Qed.

Lemma in_values {A : Type} (t : Tensor A) (v : A) :
  In v (values t)
  <-> exists n c h w,
        (n < dimN t /\ c < dimC t /\ h < dimH t /\ w < dimW t)
        /\ cell t n c h w = v.
Proof.
  unfold values. rewrite in_map_iff. split.
  - intros ([[[n c] h] w] & Hv & Hin). apply in_coords in Hin.
    exists n, c, h, w. split; assumption.
  - intros (n & c & h & w & Hb & Hv). exists (n, c, h, w).
    split; [exact Hv | apply in_coords; exact Hb].
Qed.

Lemma insert_sorted_In (x y : Z) (l : list Z) :
  In y (insert_sorted x l) <-> y = x \/ In y l.
Proof.
  induction l as [|z l IH]; simpl.
  - intuition.
  - destruct (Z.ltb_spec x z); [simpl; intuition|].
    destruct (Z.eqb_spec x z); simpl; [subst; intuition|].
    rewrite IH. intuition.
Qed.

Lemma np_unique_In (y : Z) (l : list Z) : In y (np_unique l) <-> In y l.
Proof.
  induction l as [|x l IH]; simpl; [tauto|].
  rewrite insert_sorted_In, IH. intuition.
Qed.

Lemma insert_sorted_sorted (x : Z) (l : list Z) :
  StronglySorted Z.lt l -> StronglySorted Z.lt (insert_sorted x l).
Proof.
  induction 1 as [|z l Hs IH Hall]; simpl.
  - constructor; constructor.
  - destruct (Z.ltb_spec x z).
    + constructor; [constructor; assumption|].
      constructor; [assumption|].
      apply List.Forall_forall. intros y Hy.
      rewrite List.Forall_forall in Hall. specialize (Hall y Hy). lia.
    + destruct (Z.eqb_spec x z); [constructor; assumption|].
      constructor; [assumption|].
      apply List.Forall_forall. intros y Hy.
      apply insert_sorted_In in Hy as [->|Hy]; [lia|].
      rewrite List.Forall_forall in Hall. apply (Hall y Hy).
Qed.

Lemma np_unique_sorted (l : list Z) : StronglySorted Z.lt (np_unique l).
Proof.
  induction l; simpl; [constructor | apply insert_sorted_sorted; assumption].
Qed.

Lemma sorted_lt_NoDup (l : list Z) : StronglySorted Z.lt l -> List.NoDup l.
Proof.
  induction 1 as [|z l Hs IH Hall]; constructor; [|assumption].
  intros Hin. rewrite List.Forall_forall in Hall.
  specialize (Hall z Hin). lia.
Qed.

Lemma np_unique_NoDup (l : list Z) : List.NoDup (np_unique l).
Proof. apply sorted_lt_NoDup, np_unique_sorted. Qed.

Lemma py_in_true (x : Z) (l : list Z) : py_in x l = true <-> In x l.
Proof.
  unfold py_in. rewrite existsb_exists. split.
  - intros (y & Hy & Heq). apply Z.eqb_eq in Heq. subst. exact Hy.
  - intros H. exists x. split; [exact H | apply Z.eqb_refl].
Qed.

(** [x in np.unique(t)] holds exactly when some cell of [t] holds [x]. *)
Lemma py_in_unique (x : Z) (t : Tensor Z) :
  py_in x (np_unique (values t)) = true
  <-> exists n c h w,
        (n < dimN t /\ c < dimC t /\ h < dimH t /\ w < dimW t)
        /\ cell t n c h w = x.
Proof. rewrite py_in_true, np_unique_In. apply in_values. Qed.

(** ** One-hot encoding *)

Lemma scatter_fold (index : Tensor Z) (l : list Idx) :
  forall self : Tensor Z,
    (forall n c h w, In (n, c, h, w) l ->
       n < dimN self /\ h < dimH self /\ w < dimW self
       /\ (0 <= cell index n c h w < Z.of_nat (dimC self))%Z) ->
    exists t,
      foldM (scatter_one index) self l = Ok t
      /\ dimN t = dimN self /\ dimC t = dimC self
      /\ dimH t = dimH self /\ dimW t = dimW self
      /\ forall n k h w,
           cell t n k h w
           = if scatter_hit index l n k h w then 1%Z else cell self n k h w.
Proof.
  induction l as [|[[[n0 c0] h0] w0] l IH]; intros self Hl.
  - exists self. simpl. auto 10.
  - destruct (Hl n0 c0 h0 w0 (or_introl eq_refl)) as (Hn & Hh & Hw & Hv).
    simpl foldM. unfold scatter_one at 1. simpl at_.
    assert (Hr : (0 <=? cell index n0 c0 h0 w0)%Z
                 && (cell index n0 c0 h0 w0 <? Z.of_nat (dimC self))%Z = true).
    { apply andb_true_iff. split; [apply Z.leb_le | apply Z.ltb_lt]; lia. }
    rewrite Hr. unfold tset, in_bounds.
    assert (Hb : (n0 <? dimN self)
                 && (Z.to_nat (cell index n0 c0 h0 w0) <? dimC self)
                 && (h0 <? dimH self) && (w0 <? dimW self) = true).
    { rewrite !andb_true_iff, !Nat.ltb_lt. lia. }
    rewrite Hb. simpl.
    match goal with |- context [foldM _ ?t1 l] => set (t1' := t1) end.
    destruct (IH t1') as (t & Hrun & HN & HC & HH & HW & Hcell).
    { intros n c h w Hin. apply (Hl n c h w). right. exact Hin. }
    exists t. split; [exact Hrun|]. repeat split; try assumption.
    intros n k h w. rewrite Hcell. simpl.
    destruct (scatter_hit index l n k h w);
      [rewrite orb_true_r; reflexivity|].
    rewrite orb_false_r.
    match goal with
    | |- (if ?a then _ else _) = (if ?b then _ else _) =>
        replace a with b; [reflexivity|]
    end.
    apply eq_true_iff_eq.
    rewrite !andb_true_iff, !Nat.eqb_eq, Z.eqb_eq. lia.
Qed.

Lemma scatter_hit_single (index : Tensor Z) (n k h w : nat) :
  dimC index = 1 -> n < dimN index -> h < dimH index -> w < dimW index ->
  scatter_hit index (coords_of index) n k h w
  = (cell index n 0 h w =? Z.of_nat k)%Z.
Proof.
  intros HC Hn Hh Hw. apply eq_true_iff_eq.
  unfold scatter_hit. rewrite existsb_exists, Z.eqb_eq. split.
  - intros ([[[n' c'] h'] w'] & Hin & Hc). apply in_coords in Hin.
    rewrite !andb_true_iff, !Nat.eqb_eq, Z.eqb_eq in Hc. simpl in Hc.
    destruct Hc as [[[-> ->] ->] Hv].
    assert (c' = 0) as -> by lia. exact Hv.
  - intros Hv. exists (n, 0, h, w). split.
    + apply in_coords. lia.
    + rewrite !Nat.eqb_refl. simpl. apply Z.eqb_eq. exact Hv.
Qed.

Lemma scatter_onehot (label_map : Tensor Z) (C : nat) :
  dimC label_map = 1 ->
  (forall n h w, n < dimN label_map -> h < dimH label_map ->
                 w < dimW label_map ->
                 (0 <= cell label_map n 0 h w < Z.of_nat C)%Z) ->
  exists t,
    scatter_ (zeros (dimN label_map) C (dimH label_map) (dimW label_map))
             label_map = Ok t
    /\ dimN t = dimN label_map /\ dimC t = C
    /\ dimH t = dimH label_map /\ dimW t = dimW label_map
    /\ forall n k h w,
         n < dimN label_map -> h < dimH label_map -> w < dimW label_map ->
         cell t n k h w
         = if (cell label_map n 0 h w =? Z.of_nat k)%Z then 1%Z else 0%Z.
Proof.
  intros HC Hrange. unfold scatter_.
  destruct (scatter_fold label_map (coords_of label_map)
              (zeros (dimN label_map) C (dimH label_map) (dimW label_map)))
    as (t & Hrun & HN & HC' & HH & HW & Hcell).
  { intros n c h w Hin. apply in_coords in Hin. simpl.
    assert (c = 0) as -> by lia.
    repeat split; try lia; apply Hrange; lia. }
  exists t. split; [exact Hrun|]. repeat split; try assumption.
  intros n k h w Hn Hh Hw. rewrite Hcell.
  rewrite scatter_hit_single by assumption. reflexivity.
Qed.

(** ** Argmax over the channels *)

Section Argmax.
Variable t : Tensor Z.
Variables n h w : nat.

Lemma argmax_stays (l : list nat) (best : nat) :
  (forall k, In k l -> (cell t n k h w <= cell t n best h w)%Z) ->
  fold_left (argmax_step t n h w) l best = best.
Proof.
  induction l as [|k l IH]; simpl; intros Hle; [reflexivity|].
  unfold argmax_step at 2.
  destruct (Z.ltb_spec (cell t n best h w) (cell t n k h w)).
  - specialize (Hle k (or_introl eq_refl)). lia.
  - apply IH. intros k' Hk'. apply Hle. right. exact Hk'.
Qed.

Lemma argmax_below (lab : nat) (l : list nat) (best : nat) :
  (forall k, In k l -> (cell t n k h w < cell t n lab h w)%Z) ->
  best = lab \/ (cell t n best h w < cell t n lab h w)%Z ->
  fold_left (argmax_step t n h w) l best = lab
  \/ (cell t n (fold_left (argmax_step t n h w) l best) h w < cell t n lab h w)%Z.
Proof.
  revert best. induction l as [|k l IH]; simpl; intros best Hlt Hb;
    [exact Hb|].
  apply IH; [intros k' Hk'; apply Hlt; right; exact Hk'|].
  unfold argmax_step. specialize (Hlt k (or_introl eq_refl)).
  destruct (Z.ltb_spec (cell t n best h w) (cell t n k h w)); [right; exact Hlt|].
  exact Hb.
Qed.

(** The first channel holding the maximum is the one that is returned. *)
Lemma argmax_first_max (lab : nat) :
  lab < dimC t ->
  (forall k, k < lab -> (cell t n k h w < cell t n lab h w)%Z) ->
  (forall k, k < dimC t -> (cell t n k h w <= cell t n lab h w)%Z) ->
  argmax_channel t n h w = lab.
Proof.
  intros Hlab Hbefore Hall. unfold argmax_channel.
  replace (dimC t) with (lab + S (dimC t - S lab)) by lia.
  rewrite seq_app, fold_left_app. simpl seq. simpl fold_left.
  set (b := fold_left (argmax_step t n h w) (seq 0 lab) 0).
  assert (Hp : b = lab \/ (cell t n b h w < cell t n lab h w)%Z).
  { apply argmax_below.
    - intros k Hk. apply in_seq in Hk. apply Hbefore. lia.
    - destruct lab; [left; reflexivity | right; apply Hbefore; lia]. }
  assert (Hat : argmax_step t n h w b lab = lab).
  { unfold argmax_step. destruct Hp as [-> | Hp].
    - rewrite Z.ltb_irrefl. reflexivity.
    - apply Z.ltb_lt in Hp. rewrite Hp. reflexivity. }
  rewrite Hat. apply argmax_stays.
  intros k Hk. apply in_seq in Hk. apply Hall. lia.
Qed.
End Argmax.

(** C7: for a label map (one channel) whose values lie in [0, label_nc) with
    label_nc nonzero, [encode_input] returns a tensor, and the argmax across
    its channel dimension at each pixel is the label of that pixel. *)
Theorem C7_onehot_argmax_roundtrip (opt : Opt) (label_map : Tensor Z)
    (inst_map : option (Tensor Z)) :
  label_nc opt <> 0 ->
  dimC label_map = 1 ->
  (forall n h w, n < dimN label_map -> h < dimH label_map ->
                 w < dimW label_map ->
                 (0 <= cell label_map n 0 h w < Z.of_nat (label_nc opt))%Z) ->
  (no_instance opt = false ->
   exists inst, inst_map = Some inst /\ dimN inst = dimN label_map
                /\ dimH inst = dimH label_map /\ dimW inst = dimW label_map) ->
  exists input_label,
    encode_input opt label_map inst_map = Ok input_label
    /\ dimN input_label = dimN label_map
    /\ dimH input_label = dimH label_map
    /\ dimW input_label = dimW label_map
    /\ forall n h w,
         n < dimN label_map -> h < dimH label_map -> w < dimW label_map ->
         Z.of_nat (argmax_channel input_label n h w) = cell label_map n 0 h w.
Proof.
  intros Hnc HC Hrange Hinst.
  destruct (scatter_onehot label_map (label_nc opt) HC Hrange)
    as (t & Hrun & HN & HCt & HH & HW & Hcell).
  assert (Hdecode : forall (u : Tensor Z) n h w,
            n < dimN label_map -> h < dimH label_map -> w < dimW label_map ->
            label_nc opt <= dimC u ->
            (forall k, k < label_nc opt -> cell u n k h w = cell t n k h w) ->
            (forall k, k < dimC u -> (cell u n k h w <= 1)%Z) ->
            Z.of_nat (argmax_channel u n h w) = cell label_map n 0 h w).
  { intros u n h w Hn Hh Hw Hdim Hsame Hle.
    specialize (Hrange n h w Hn Hh Hw).
    set (lab := Z.to_nat (cell label_map n 0 h w)).
    assert (Hlab : lab < label_nc opt) by (unfold lab; lia).
    assert (Hone : cell u n lab h w = 1%Z).
    { rewrite Hsame, Hcell by assumption.
      unfold lab. rewrite Z2Nat.id by lia. rewrite Z.eqb_refl. reflexivity. }
    rewrite (argmax_first_max u n h w lab); [unfold lab; lia|lia| |].
    - intros k Hk. rewrite Hone, Hsame, Hcell by (assumption || lia).
      destruct (Z.eqb_spec (cell label_map n 0 h w) (Z.of_nat k));
        [unfold lab in Hk; lia | lia].
    - intros k Hk. rewrite Hone. apply Hle. exact Hk. }
  unfold encode_input.
  destruct (Nat.eqb_spec (label_nc opt) 0) as [|_]; [contradiction|].
  rewrite Hrun. simpl.
  destruct (no_instance opt) eqn:Hno; simpl.
  - exists t. repeat split; try assumption.
    intros n h w Hn Hh Hw. apply Hdecode; try assumption; [lia|reflexivity|].
    intros k Hk. rewrite Hcell by assumption.
    destruct (_ =? _)%Z; lia.
  - destruct (Hinst eq_refl) as (inst & -> & HNi & HHi & HWi).
    destruct (get_edges_dims opt inst) as (EN & EC & EH & EW).
    unfold cat1. rewrite EN, EH, EW, HN, HH, HW, HNi, HHi, HWi.
    rewrite !Nat.eqb_refl. simpl.
    eexists. split; [reflexivity|]. simpl. repeat split; try assumption.
    intros n h w Hn Hh Hw. apply Hdecode; try assumption; simpl; [lia| |].
    + intros k Hk. rewrite HCt.
      destruct (Nat.ltb_spec k (label_nc opt)); [reflexivity | lia].
    + intros k Hk. destruct (k <? dimC t).
      * rewrite Hcell by assumption. destruct (_ =? _)%Z; lia.
      * rewrite get_edges_cell. destruct (cell (edge_mask inst) _ _ _ _);
          simpl; lia.
Qed.

(** ** The swap *)

Lemma py_in_values (x : Z) (t : Tensor Z) :
  py_in x (np_unique (values t)) = true <-> In x (values t).
Proof. rewrite py_in_true. apply np_unique_In. Qed.

Section Swap.
Variable F : Type.

Lemma put_pixel_Ok (vec : list F) (t t' : Tensor F) (ix : Idx) :
  put_pixel F vec t ix = Ok t' ->
  dimN t' = dimN t /\ dimC t' = dimC t /\ dimH t' = dimH t
  /\ dimW t' = dimW t
  /\ forall n c h w,
       cell t' n c h w
       = if pixel_hit [ix] n h w && (c <? dimC t)
         then match broadcast_entry F vec c with
              | Some v => v
              | None => cell t n c h w
              end
         else cell t n c h w.
Proof.
  destruct ix as [[[n0 c0] h0] w0]. unfold put_pixel.
  destruct ((n0 <? dimN t) && (h0 <? dimH t) && (w0 <? dimW t));
    [|discriminate].
  intros [= <-]. simpl. repeat split.
  intros n c h w. rewrite orb_false_r.
  rewrite (Nat.eqb_sym n n0), (Nat.eqb_sym h h0), (Nat.eqb_sym w w0).
  reflexivity.
Qed.

Lemma put_pixels_fold (vec : list F) (l : list Idx) :
  forall t t' : Tensor F,
    foldM (put_pixel F vec) t l = Ok t' ->
    dimN t' = dimN t /\ dimC t' = dimC t /\ dimH t' = dimH t
    /\ dimW t' = dimW t
    /\ forall n c h w,
         cell t' n c h w
         = if pixel_hit l n h w && (c <? dimC t)
           then match broadcast_entry F vec c with
                | Some v => v
                | None => cell t n c h w
                end
           else cell t n c h w.
Proof.
  induction l as [|ix l IH]; intros t t' Hrun.
  - injection Hrun as <-. auto 10.
  - simpl in Hrun. inv_bind Hrun.
    apply put_pixel_Ok in Ha as (HN & HC & HH & HW & Hcell).
    apply IH in Hrun as (HN' & HC' & HH' & HW' & Hcell').
    repeat split; try congruence.
    intros n c h w. rewrite Hcell', Hcell, HC.
    replace (pixel_hit (ix :: l) n h w)
      with (pixel_hit [ix] n h w || pixel_hit l n h w)
      by (simpl; rewrite orb_false_r; reflexivity).
    destruct (pixel_hit l n h w), (pixel_hit [ix] n h w),
      (c <? dimC t), (broadcast_entry F vec c); reflexivity.
Qed.

Lemma put_pixels_total (vec : list F) (l : list Idx) :
  forall t : Tensor F,
    (forall n c h w, In (n, c, h, w) l ->
       n < dimN t /\ h < dimH t /\ w < dimW t) ->
    exists t', foldM (put_pixel F vec) t l = Ok t'.
Proof.
  induction l as [|[[[n0 c0] h0] w0] l IH]; intros t Hl.
  - exists t. reflexivity.
  - simpl. unfold put_pixel at 1.
    destruct (Hl n0 c0 h0 w0 (or_introl eq_refl)) as (Hn & Hh & Hw).
    apply Nat.ltb_lt in Hn, Hh, Hw. rewrite Hn, Hh, Hw. simpl.
    apply IH. simpl. intros n c h w Hin. apply Nat.ltb_lt in Hn, Hh, Hw.
    apply (Hl n c h w). right. exact Hin.
Qed.

Lemma pixel_hit_nonzero (t : Tensor Z) (i : Z) (n h w : nat) :
  pixel_hit (nonzero (eq_scalar t i)) n h w = true
  <-> exists c, (n < dimN t /\ c < dimC t /\ h < dimH t /\ w < dimW t)
                /\ cell t n c h w = i.
Proof.
  unfold pixel_hit. rewrite existsb_exists. split.
  - intros ([[[n' c'] h'] w'] & Hin & Hc).
    rewrite !andb_true_iff, !Nat.eqb_eq in Hc. destruct Hc as [[-> ->] ->].
    exists c'. apply in_nonzero_eq. exact Hin.
  - intros (c & Hin). exists (n, c, h, w). split.
    + apply in_nonzero_eq. exact Hin.
    + rewrite !Nat.eqb_refl. reflexivity.
Qed.

Section Heap.
Variables (cf rf cl rl : nat) (σ : gmap nat (obj F)).
Variables (clm rlm : Tensor Z) (cfm rfm : Tensor F).
Hypothesis Hcl : σ !! cl = Some (LabelMap clm).
Hypothesis Hrl : σ !! rl = Some (LabelMap rlm).
Hypothesis Hcf : σ !! cf = Some (FeatMap cfm).
Hypothesis Hrf : σ !! rf = Some (FeatMap rfm).

(** What a returning call has checked and computed. *)
Lemma swapped_map_spec (swapID : Z) (cfm' : Tensor F) :
  swapped_map F swapID cf rf cl rl σ = Ok cfm'
  <-> exists e s vec,
        In swapID (values clm)
        /\ resolved_class swapID rlm = Some e
        /\ In e (values rlm)
        /\ nth_error (nonzero (eq_scalar (first_sample rlm) e)) 0 = Some s
        /\ pixel_vector F rfm s = Ok vec
        /\ put_pixels F cfm (nonzero (eq_scalar (first_sample clm) swapID))
                      vec = Ok cfm'.
Proof.
  unfold swapped_map, read_label, read_feat, resolved_class.
  rewrite Hcl, Hrl, Hcf, Hrf. simpl.
  destruct (py_in swapID (np_unique (values clm))) eqn:Hin; simpl.
  2:{ split; [discriminate|]. intros (e & s & vec & Hf & _).
      apply (proj2 (py_in_values _ _)) in Hf. congruence. }
  apply (proj1 (py_in_values _ _)) in Hin.
  destruct (if negb (py_in swapID (np_unique (values rlm)))
            then get_equiv_ID swapID else Some swapID) as [e|];
    [|split; [discriminate
             | intros (e & s & vec & _ & Hf & _); discriminate]].
  split.
  - intros Hrun. exists e.
    destruct (py_in e (np_unique (values rlm))) eqn:He; simpl in Hrun;
      [|discriminate].
    apply (proj1 (py_in_values _ _)) in He.
    destruct (nonzero (eq_scalar (first_sample rlm) e)) as [|s l];
      simpl in Hrun; [discriminate|].
    exists s. inv_bind Hrun. exists a. auto 10.
  - intros (e' & s & vec & _ & [= <-] & He & Hs & Hvec & Hput).
    apply (proj2 (py_in_values _ _)) in He. rewrite He, Hs. simpl.
    rewrite Hvec. simpl. exact Hput.
Qed.

Lemma swap_features_Ok (swapID : Z) (σ' : gmap nat (obj F)) (u : unit) :
  swap_features F swapID cf rf cl rl σ = (σ', Ok u)
  <-> exists cfm',
        swapped_map F swapID cf rf cl rl σ = Ok cfm'
        /\ σ' = <[cf := FeatMap cfm']> σ.
Proof.
  unfold swap_features.
  destruct (swapped_map F swapID cf rf cl rl σ) as [t|e]; split.
  - intros [= <-]. exists t. auto.
  - intros (t' & [= <-] & ->). destruct u. reflexivity.
  - discriminate.
  - intros (t' & Hf & _). discriminate.
Qed.

(** The cells of the condition feature map after the indexed assignment. *)
Lemma put_pixels_cells (swapID : Z) (vec : list F) (cfm' : Tensor F) :
  put_pixels F cfm (nonzero (eq_scalar (first_sample clm) swapID)) vec
  = Ok cfm' ->
  (dimN cfm' = dimN cfm /\ dimC cfm' = dimC cfm /\ dimH cfm' = dimH cfm
   /\ dimW cfm' = dimW cfm)
  /\ (forall n c h w,
        cell cfm' n c h w <> cell cfm n c h w ->
        n = 0 /\ c < dimC cfm /\ h < dimH clm /\ w < dimW clm
        /\ exists c0, c0 < dimC clm /\ cell clm 0 c0 h w = swapID)
  /\ (forall c0 h w c v,
        0 < dimN clm -> c0 < dimC clm -> h < dimH clm -> w < dimW clm ->
        cell clm 0 c0 h w = swapID -> c < dimC cfm ->
        broadcast_entry F vec c = Some v ->
        cell cfm' 0 c h w = v).
Proof.
  unfold put_pixels.
  destruct ((length vec =? dimC cfm) || (length vec =? 1)); [|discriminate].
  intros Hrun.
  apply put_pixels_fold in Hrun as (HN & HC & HH & HW & Hcell).
  split; [auto|]. split.
  - intros n c h w Hne. rewrite Hcell in Hne.
    destruct (pixel_hit _ n h w) eqn:Hhit; [|contradiction].
    destruct (Nat.ltb_spec c (dimC cfm)); [|contradiction].
    apply pixel_hit_nonzero in Hhit as (c0 & Hb & Hv).
    unfold first_sample in Hb, Hv. cbn [dimN dimC dimH dimW cell] in Hb, Hv.
    assert (n = 0) as -> by lia.
    repeat split; try lia. exists c0. split; [lia | exact Hv].
  - intros c0 h w c v HN0 Hc0 Hh Hw Hv Hc Hbe. rewrite Hcell.
    assert (Hhit : pixel_hit
                     (nonzero (eq_scalar (first_sample clm) swapID)) 0 h w
                   = true).
    { apply pixel_hit_nonzero. exists c0. unfold first_sample.
      cbn [dimN dimC dimH dimW cell]. split; [lia | exact Hv]. }
    apply Nat.ltb_lt in Hc. rewrite Hhit, Hc, Hbe. reflexivity.
Qed.

Lemma pixel_vector_total (s0 sc s2 s3 : nat) :
  s0 < dimN rfm -> s2 < dimH rfm -> s3 < dimW rfm ->
  pixel_vector F rfm (s0, sc, s2, s3)
  = Ok (map (fun c => cell rfm s0 c s2 s3) (seq 0 (dimC rfm))).
Proof.
  intros H0 H2 H3. unfold pixel_vector.
  apply Nat.ltb_lt in H0, H2, H3. rewrite H0, H2, H3. reflexivity.
Qed.

Lemma broadcast_entry_map (f : nat -> F) (C c : nat) :
  c < C -> broadcast_entry F (map f (seq 0 C)) c = Some (f c).
Proof.
  intros Hc. unfold broadcast_entry. rewrite length_map, length_seq.
  destruct (Nat.eqb_spec C 1) as [->|_].
  - assert (c = 0) as -> by lia. reflexivity.
  - rewrite nth_error_map, nth_error_seq.
    apply Nat.ltb_lt in Hc. rewrite Hc. reflexivity.
Qed.

(** With feature maps of the sizes of their label maps, a call whose two
    assertions hold and whose reference class occurs in the first sample
    returns, and every condition pixel holds the vector of the first
    reference pixel. *)
Lemma swap_features_total (swapID e : Z) (s0 sc s2 s3 : nat) :
  same_plane cfm clm -> same_plane rfm rlm -> dimC rfm = dimC cfm ->
  In swapID (values clm) ->
  resolved_class swapID rlm = Some e ->
  nth_error (nonzero (eq_scalar (first_sample rlm) e)) 0
  = Some (s0, sc, s2, s3) ->
  exists cfm',
    swap_features F swapID cf rf cl rl σ = (<[cf := FeatMap cfm']> σ, Ok tt)
    /\ (s0 = 0 /\ sc < dimC rlm /\ s2 < dimH rlm /\ s3 < dimW rlm
        /\ cell rlm 0 sc s2 s3 = e)
    /\ forall c0 h w c,
         c0 < dimC clm -> h < dimH clm -> w < dimW clm ->
         cell clm 0 c0 h w = swapID -> c < dimC cfm ->
         cell cfm' 0 c h w = cell rfm 0 c s2 s3.
Proof.
  intros (HcN & HcH & HcW) (HrN & HrH & HrW) HC Hin Hres Hs.
  assert (Hs' := Hs). apply nth_error_In, in_nonzero_eq in Hs'.
  unfold first_sample in Hs'. cbn [dimN dimC dimH dimW cell] in Hs'.
  destruct Hs' as ((Hs0 & Hsc & Hs2 & Hs3) & Hse).
  assert (s0 = 0) as -> by lia.
  set (vec := map (fun c => cell rfm 0 c s2 s3) (seq 0 (dimC rfm))).
  assert (HN1 : 0 < dimN clm).
  { apply in_values in Hin as (n & c & h & w & Hb & _). lia. }
  destruct (put_pixels_total vec
              (nonzero (eq_scalar (first_sample clm) swapID)) cfm)
    as (cfm' & Hput).
  { intros n c h w Hix. apply in_nonzero_eq in Hix as (Hb & _).
    unfold first_sample in Hb. cbn [dimN dimC dimH dimW] in Hb. lia. }
  assert (Hput' : put_pixels F cfm
                    (nonzero (eq_scalar (first_sample clm) swapID)) vec
                  = Ok cfm').
  { unfold put_pixels. unfold vec at 1 2.
    rewrite length_map, length_seq, HC, Nat.eqb_refl. exact Hput. }
  exists cfm'. split; [|split].
  - apply swap_features_Ok. exists cfm'. split; [|reflexivity].
    apply swapped_map_spec. exists e, (0, sc, s2, s3), vec.
    repeat split; try assumption.
    + apply in_values. exists 0, sc, s2, s3. split; [lia | exact Hse].
    + apply pixel_vector_total; lia.
  - auto.
  - intros c0 h w c Hc0 Hh Hw Hv Hc.
    destruct (put_pixels_cells swapID vec cfm' Hput') as (_ & _ & Hval).
    apply (Hval c0 h w c); try assumption.
    apply (broadcast_entry_map (fun k => cell rfm 0 k s2 s3)). lia.
Qed.
End Heap.

End Swap.

(** C1, as stated, fails: on the example heap the second condition pixel
    (index 1) and the second reference pixel (index 1) are both pixel
    (0, 0, 0, 1); after the swap the condition pixel holds 10.0, the feature
    of reference pixel 0, and not 20.0, the feature of reference pixel 1. *)
Lemma C1_positional_counterexample :
  nth_error (nonzero (eq_scalar (first_sample ex_labels) 5)) 1
  = Some (0, 0, 0, 1)
  /\ snd (swap_features Z 5 0 1 2 3 ex_heap) = Ok tt
  /\ feat_cell (fst (swap_features Z 5 0 1 2 3 ex_heap)) 0 0 0 0 1
     = Some 10%Z
  /\ feat_cell ex_heap 1 0 0 0 1 = Some 20%Z
  /\ feat_cell (fst (swap_features Z 5 0 1 2 3 ex_heap)) 0 0 0 0 1
     <> feat_cell ex_heap 1 0 0 0 1.
Proof. vm_compute. repeat split; discriminate. Qed.

(** C1 (amended): when the condition map holds the swap class, the reference
    map holds the resolved class in its first sample, and the feature maps
    have the sizes of their label maps, the call returns and each of the N
    condition pixels of the first sample holds, in every channel, the feature
    vector of the first reference pixel (index 0 of the reference pixels in
    index order), whatever its own index is. *)
Theorem C1_swap_first_reference_pixel (F : Type) (swapID e : Z)
    (cf rf cl rl : nat) (σ : gmap nat (obj F))
    (clm rlm : Tensor Z) (cfm rfm : Tensor F) (s0 sc s2 s3 : nat) :
  σ !! cl = Some (LabelMap clm) ->
  σ !! rl = Some (LabelMap rlm) ->
  σ !! cf = Some (FeatMap cfm) ->
  σ !! rf = Some (FeatMap rfm) ->
  same_plane cfm clm -> same_plane rfm rlm -> dimC rfm = dimC cfm ->
  In swapID (values clm) ->
  resolved_class swapID rlm = Some e ->
  nth_error (nonzero (eq_scalar (first_sample rlm) e)) 0
  = Some (s0, sc, s2, s3) ->
  exists cfm',
    swap_features F swapID cf rf cl rl σ = (<[cf := FeatMap cfm']> σ, Ok tt)
    /\ forall i n c0 h w c,
         nth_error (nonzero (eq_scalar (first_sample clm) swapID)) i
         = Some (n, c0, h, w) ->
         c < dimC cfm ->
         cell cfm' n c h w = cell rfm s0 c s2 s3.
Proof.
  intros Hcl Hrl Hcf Hrf Hpc Hpr HC Hin Hres Hs.
  destruct (swap_features_total F cf rf cl rl σ clm rlm cfm rfm
              Hcl Hrl Hcf Hrf swapID e s0 sc s2 s3 Hpc Hpr HC Hin Hres Hs)
    as (cfm' & Hrun & (-> & _) & Hval).
  exists cfm'. split; [exact Hrun|].
  intros i n c0 h w c Hi Hc.
  apply nth_error_In, in_nonzero_eq in Hi.
  unfold first_sample in Hi. cbn [dimN dimC dimH dimW cell] in Hi.
  destruct Hi as ((Hn & Hc0 & Hh & Hw) & Hv).
  assert (n = 0) as -> by lia. apply (Hval c0); assumption.
Qed.

Lemma C1_swap_first_reference_pixel_witness :
  exists cfm',
    swap_features Z 5 0 1 2 3 ex_heap
    = (<[0 := FeatMap cfm']> ex_heap, Ok tt)
    /\ forall i n c0 h w c,
         nth_error (nonzero (eq_scalar (first_sample ex_labels) 5)) i
         = Some (n, c0, h, w) ->
         c < dimC ex_cond_feats ->
         cell cfm' n c h w = cell ex_ref_feats 0 c 0 0.
Proof.
  apply (C1_swap_first_reference_pixel Z 5 5 0 1 2 3 ex_heap
           ex_labels ex_labels ex_cond_feats ex_ref_feats 0 0 0 0);
    try reflexivity.
  - repeat split.
  - repeat split.
  - vm_compute. auto.
Defined.




(** C3: [swap_features] raises an assertion error when the swap class is not
    among the values of the condition label map, and also when neither the
    swap class nor its entry of the equivalence table is among the values of
    the reference label map; in both cases the heap, hence every feature
    map, is as before the call. *)
Theorem C3_swap_assertion_failures (F : Type) (swapID : Z)
    (cf rf cl rl : nat) (σ : gmap nat (obj F)) (clm rlm : Tensor Z) :
  σ !! cl = Some (LabelMap clm) ->
  σ !! rl = Some (LabelMap rlm) ->
  ~ In swapID (values clm)
  \/ (~ In swapID (values rlm)
      /\ forall e, get_equiv_ID swapID = Some e -> ~ In e (values rlm)) ->
  swap_features F swapID cf rf cl rl σ = (σ, Raise AssertionError).
Proof.
  intros Hcl Hrl Habsent.
  unfold swap_features, swapped_map, read_label. rewrite Hcl, Hrl. simpl.
  destruct (py_in swapID (np_unique (values clm))) eqn:Hc; simpl;
    [|reflexivity].
  apply py_in_values in Hc. destruct Habsent as [Hno | [Hno Heq]];
    [contradiction|].
  destruct (py_in swapID (np_unique (values rlm))) eqn:Hr.
  { apply py_in_values in Hr. contradiction. }
  simpl. destruct (get_equiv_ID swapID) as [e|]; [|reflexivity].
  destruct (py_in e (np_unique (values rlm))) eqn:He; [|reflexivity].
  apply py_in_values in He. exfalso. exact (Heq e eq_refl He).
Qed.

Lemma C3_swap_assertion_failures_witness :
  swap_features Z 7 0 1 2 3 ex_heap = (ex_heap, Raise AssertionError)
  /\ swap_features Z 5 0 1 2 5 ex_heap = (ex_heap, Raise AssertionError).
Proof.
  split.
  - apply (C3_swap_assertion_failures Z 7 0 1 2 3 ex_heap
             ex_labels ex_labels); try reflexivity.
    left. vm_compute. intros [H|[H|[]]]; discriminate.
  - apply (C3_swap_assertion_failures Z 5 0 1 2 5 ex_heap
             ex_labels ex_pants_labels); try reflexivity.
    right. split.
    + vm_compute. intros [H|[H|[]]]; discriminate.
    + intros e H. injection H as <-. vm_compute.
      intros [H|[H|[]]]; discriminate.
Defined.




(** ** Feature encoding *)

Lemma mapR_length {A B : Type} (f : A -> Result B) (l : list A)
    (bs : list B) :
  mapR f l = Ok bs -> length bs = length l.
Proof.
  revert bs. induction l as [|a l IH]; simpl; intros bs Hrun.
  - injection Hrun as <-. reflexivity.
  - inv_bind Hrun. inv_bind Hrun. injection Hrun as <-.
    simpl. f_equal. apply IH. assumption.
Qed.

Lemma filter_none {A : Type} (f : A -> bool) (l : list A) :
  (forall x, In x l -> f x = false) -> List.filter f l = [].
Proof.
  induction l as [|a l IH]; simpl; intros Hf; [reflexivity|].
  rewrite (Hf a (or_introl eq_refl)). apply IH.
  intros x Hx. apply Hf. right. exact Hx.
Qed.

Section Encode.
Variable F : Type.
Variable netE_forward : Tensor F -> Tensor Z -> Tensor F.
Variable fdiv : nat -> nat -> F.
Variable opt : Opt.

Lemma instance_row_length (feat_map : Tensor F) (inst : Tensor Z) (i : Z)
    (val : list F) :
  instance_row F fdiv opt feat_map inst i = Ok val ->
  length val = feat_num opt + 1.
Proof.
  unfold instance_row. intros Hrun. inv_bind Hrun. inv_bind Hrun.
  destruct (_ =? 0); [discriminate|]. injection Hrun as <-.
  apply mapR_length in Ha0. rewrite length_app, Ha0, length_seq.
  reflexivity.
Qed.

Lemma init_keys (z : Array2 F) (n a : nat) (m : gmap Z (Array2 F)) (k : Z) :
  fold_left (fun feature i => <[Z.of_nat i := z]> feature) (seq a n) m !! k
  = if ((Z.of_nat a <=? k) && (k <? Z.of_nat (a + n)))%Z then Some z
    else m !! k.
Proof.
  revert a m. induction n as [|n IH]; intros a m; simpl.
  - destruct (Z.leb_spec (Z.of_nat a) k), (Z.ltb_spec k (Z.of_nat (a + 0)));
      simpl; try reflexivity; lia.
  - rewrite IH.
    destruct (Z.leb_spec (Z.of_nat (S a)) k),
             (Z.ltb_spec k (Z.of_nat (S a + n))),
             (Z.leb_spec (Z.of_nat a) k),
             (Z.ltb_spec k (Z.of_nat (a + S n)));
      simpl; try reflexivity; try lia;
      try (rewrite lookup_insert_ne by lia; reflexivity);
      try (assert (k = Z.of_nat a) as -> by lia; apply lookup_insert_eq).
Qed.

Lemma empty_features_lookup (k : Z) :
  empty_features F opt !! k
  = if ((0 <=? k) && (k <? Z.of_nat (label_nc opt)))%Z
    then Some (np_zeros_0 (feat_num opt + 1))
    else None.
Proof.
  unfold empty_features. rewrite init_keys. rewrite lookup_empty.
  reflexivity.
Qed.

(** The loop appends to the entry of class [k] the rows of the instances of
    that class, in the order of the loop, and creates no key. *)
Lemma encode_loop (feat_map : Tensor F) (inst : Tensor Z) (l : list Z) :
  forall d0 d : gmap Z (Array2 F),
    foldM (encode_body F fdiv opt feat_map inst) d0 l = Ok d ->
    (forall i, In i l ->
       instance_row F fdiv opt feat_map inst i
       = Ok (row_of fdiv opt feat_map inst i)
       /\ is_Some (d0 !! class_of i))
    /\ forall k,
         d !! k
         = match d0 !! k with
           | Some a =>
               Some (mkArray2 (ncols a)
                       (rows a
                        ++ map (row_of fdiv opt feat_map inst)
                             (List.filter (fun i => (class_of i =? k)%Z) l)))
           | None => None
           end.
Proof.
  induction l as [|i l IH]; intros d0 d Hrun.
  - injection Hrun as <-. split; [intros i []|].
    intros k. destruct (d0 !! k) as [[nc rs]|]; [|reflexivity].
    simpl. rewrite app_nil_r. reflexivity.
  - simpl in Hrun. inv_bind Hrun. unfold encode_body in Ha.
    inv_bind Ha. rename a0 into val, Ha0 into Hrow.
    destruct (d0 !! class_of i) as [arr|] eqn:Hkey; [|discriminate].
    inv_bind Ha. injection Ha as <-. unfold np_append in Ha0.
    destruct (ncols arr =? _); [|discriminate]. injection Ha0 as <-.
    apply IH in Hrun as (Hrows & Hkeys).
    assert (Hval : row_of fdiv opt feat_map inst i = val).
    { unfold row_of. rewrite Hrow. reflexivity. }
    split.
    + intros j [<- | Hj].
      * rewrite Hval, Hkey. split; [exact Hrow | eauto].
      * destruct (Hrows j Hj) as (Hr & Hs). split; [exact Hr|].
        destruct (decide (class_of i = class_of j)) as [Heq|Hne].
        -- rewrite <- Heq, Hkey. eauto.
        -- rewrite lookup_insert_ne in Hs by exact Hne. exact Hs.
    + intros k. rewrite Hkeys. simpl.
      destruct (Z.eqb_spec (class_of i) k) as [<-|Hne].
      * rewrite lookup_insert_eq, Hkey. simpl.
        rewrite <- app_assoc, Hval. reflexivity.
      * rewrite lookup_insert_ne by exact Hne. reflexivity.
Qed.

(** C10: the dictionary returned by [encode_features] has exactly the class
    ids 0 .. label_nc-1 as keys; the entry of class k is the array of
    feat_num+1 columns whose rows are the rows of the distinct instance
    values i of class k (k = i, or i // 1000 when i >= 1000), one row of
    length feat_num+1 per instance value; so a class without instance has an
    empty array, and a composite value i >= 1000 is filed under i // 1000,
    never under itself. *)
Theorem C10_encode_features_keys (image : Tensor F) (inst : Tensor Z)
    (feature : gmap Z (Array2 F)) :
  encode_features F netE_forward fdiv opt image inst = Ok feature ->
  forall feat_map, feat_map = netE_forward image inst ->
  (forall k, is_Some (feature !! k)
             <-> (0 <= k < Z.of_nat (label_nc opt))%Z)
  /\ (forall k, (0 <= k < Z.of_nat (label_nc opt))%Z ->
        feature !! k
        = Some (mkArray2 (feat_num opt + 1)
                  (map (row_of fdiv opt feat_map inst)
                       (instances_of_class inst k))))
  /\ (forall i, In i (values inst) ->
        instance_row F fdiv opt feat_map inst i
        = Ok (row_of fdiv opt feat_map inst i)
        /\ length (row_of fdiv opt feat_map inst i) = feat_num opt + 1
        /\ In i (instances_of_class inst (class_of i))
        /\ (0 <= class_of i < Z.of_nat (label_nc opt))%Z
        /\ ((1000 <= i)%Z ->
            class_of i = (i / 1000)%Z /\ (class_of i < i)%Z))
  /\ (forall k, List.NoDup (instances_of_class inst k))
  /\ (forall k, (0 <= k < Z.of_nat (label_nc opt))%Z ->
        (forall i, In i (values inst) -> class_of i <> k) ->
        feature !! k = Some (np_zeros_0 (feat_num opt + 1))).
Proof.
  intros Hrun feat_map ->. unfold encode_features in Hrun.
  apply encode_loop in Hrun as (Hrows & Hkeys).
  assert (Hlook : forall k,
            feature !! k
            = if ((0 <=? k) && (k <? Z.of_nat (label_nc opt)))%Z
              then Some (mkArray2 (feat_num opt + 1)
                           (map (row_of fdiv opt (netE_forward image inst) inst)
                                (instances_of_class inst k)))
              else None).
  { intros k. rewrite Hkeys, empty_features_lookup.
    destruct ((0 <=? k)%Z && (k <? Z.of_nat (label_nc opt))%Z); reflexivity. }
  assert (Hrange : forall k,
            ((0 <=? k) && (k <? Z.of_nat (label_nc opt)))%Z = true
            <-> (0 <= k < Z.of_nat (label_nc opt))%Z).
  { intros k. rewrite andb_true_iff, Z.leb_le, Z.ltb_lt. tauto. }
  split; [|split; [|split; [|split]]].
  - intros k. rewrite Hlook, <- Hrange.
    destruct ((0 <=? k)%Z && (k <? Z.of_nat (label_nc opt))%Z); split;
      intros H; try reflexivity; try discriminate; eauto.
    destruct H as [x Hx]. discriminate.
  - intros k Hk. apply Hrange in Hk. rewrite Hlook, Hk. reflexivity.
  - intros i Hi. apply (proj2 (np_unique_In _ _)) in Hi.
    destruct (Hrows i Hi) as (Hr & Hs). split; [exact Hr|].
    split; [apply (instance_row_length _ _ _ _ Hr)|].
    split; [apply filter_In; split; [exact Hi | apply Z.eqb_refl]|].
    split.
    + rewrite empty_features_lookup in Hs. apply Hrange.
      destruct ((0 <=? class_of i)%Z
                && (class_of i <? Z.of_nat (label_nc opt))%Z);
        [reflexivity | destruct Hs as [x Hx]; discriminate].
    + intros Hbig. unfold class_of.
      destruct (Z.ltb_spec i 1000); [lia|]. split; [reflexivity|].
      apply Z.div_lt; lia.
  - intros k. apply List.NoDup_filter, np_unique_NoDup.
  - intros k Hk Hnone. apply Hrange in Hk. rewrite Hlook, Hk.
    unfold instances_of_class.
    rewrite filter_none; [reflexivity|]. intros i Hi.
    apply (proj1 (np_unique_In _ _)) in Hi. apply Z.eqb_neq. apply Hnone. exact Hi.
Qed.
End Encode.

(** ** Feature broadcast *)

Section Broadcast.
Variable F : Type.
Variable half : F -> F.
Variable uninit : nat -> nat -> nat -> nat -> F.
Variable opt : Opt.
Variable label_map : Tensor Z.
Hypothesis one_channel : dimC label_map = 1.

Lemma tset_Ok (t t' : Tensor F) (ix : Idx) (v : F) :
  tset t ix v = Ok t' ->
  (dimN t' = dimN t /\ dimC t' = dimC t /\ dimH t' = dimH t
   /\ dimW t' = dimW t)
  /\ forall n c h w,
       cell t' n c h w
       = if idx_eqb (n, c, h, w) ix then v else cell t n c h w.
Proof.
  unfold tset. destruct (in_bounds t ix); [|discriminate].
  intros [= <-]. simpl. auto.
Qed.

Lemma index_put_Ok (idx : list Idx) (v : F) :
  forall t t' : Tensor F,
    index_put t idx v = Ok t' ->
    (dimN t' = dimN t /\ dimC t' = dimC t /\ dimH t' = dimH t
     /\ dimW t' = dimW t)
    /\ forall n c h w,
         cell t' n c h w
         = if existsb (idx_eqb (n, c, h, w)) idx then v else cell t n c h w.
Proof.
  unfold index_put. induction idx as [|ix idx IH]; intros t t' Hrun.
  - injection Hrun as <-. auto.
  - simpl in Hrun. inv_bind Hrun.
    apply tset_Ok in Ha as (Hd & Hcell).
    apply IH in Hrun as (Hd' & Hcell').
    split; [intuition congruence|].
    intros n c h w. rewrite Hcell', Hcell. cbn [existsb].
    destruct (idx_eqb (n, c, h, w) ix), (existsb _ idx); reflexivity.
Qed.

(** The rows of [nonzero] of a one-channel map, shifted to channel [k], are
    the pixels of channel [k] holding the value. *)
Lemma shifted_hit (i : Z) (k n c h w : nat) :
  n < dimN label_map -> h < dimH label_map -> w < dimW label_map ->
  existsb (idx_eqb (n, c, h, w))
          (map (shift_channel k) (nonzero (eq_scalar label_map i)))
  = (c =? k) && (cell label_map n 0 h w =? i)%Z.
Proof.
  intros Hn Hh Hw. apply eq_true_iff_eq.
  rewrite existsb_exists, andb_true_iff, Nat.eqb_eq, Z.eqb_eq. split.
  - intros (ix & Hin & Heq). apply in_map_iff in Hin as (jx & <- & Hin).
    destruct jx as [[[n' c'] h'] w'].
    apply in_nonzero_eq in Hin as (Hb & Hv).
    simpl in Heq. rewrite !andb_true_iff, !Nat.eqb_eq in Heq.
    destruct Heq as [[[-> ->] ->] ->].
    assert (c' = 0) as -> by lia. auto.
  - intros (-> & Hv). exists (n, k, h, w). split.
    + apply in_map_iff. exists (n, 0, h, w). split; [reflexivity|].
      apply in_nonzero_eq. split; [lia | exact Hv].
    + simpl. rewrite !Nat.eqb_refl. reflexivity.
Qed.

(** What the loop over the channels leaves in each cell of a pixel inside
    the map. *)
Lemma write_feature_Ok (feat : Array2 F) (r : nat) (i : Z) (ks : list nat) :
  forall t t' : Tensor F,
    foldM (fun fm k =>
             v ← arr_get feat r k;
             index_put fm (map (shift_channel k)
                                (nonzero (eq_scalar label_map i))) v)
          t ks = Ok t' ->
    (dimN t' = dimN t /\ dimC t' = dimC t /\ dimH t' = dimH t
     /\ dimW t' = dimW t)
    /\ forall n c h w,
         n < dimN label_map -> h < dimH label_map -> w < dimW label_map ->
         cell t' n c h w
         = if existsb (Nat.eqb c) ks && (cell label_map n 0 h w =? i)%Z
           then match arr_get feat r c with
                | Ok v => v
                | Raise _ => cell t n c h w
                end
           else cell t n c h w.
Proof.
  induction ks as [|k ks IH]; intros t t' Hrun.
  - injection Hrun as <-. auto.
  - simpl in Hrun. inv_bind Hrun. inv_bind Ha. rename a0 into v.
    apply index_put_Ok in Ha as (Hd & Hcell).
    apply IH in Hrun as (Hd' & Hcell').
    split; [intuition congruence|].
    intros n c h w Hn Hh Hw. rewrite Hcell' by assumption.
    rewrite Hcell, shifted_hit by assumption. cbn [existsb].
    destruct (Nat.eqb_spec c k) as [->|Hne]; cbn [andb orb].
    + rewrite Ha0.
      destruct (existsb (Nat.eqb k) ks), (_ =? _)%Z; reflexivity.
    + destruct (existsb (Nat.eqb c) ks), (_ =? _)%Z; try reflexivity.
Qed.

Lemma write_feature_cells (feat : Array2 F) (r : nat) (i : Z)
    (t t' : Tensor F) :
  write_feature F opt feat r (nonzero (eq_scalar label_map i)) t = Ok t' ->
  forall n c h w,
    n < dimN label_map -> h < dimH label_map -> w < dimW label_map ->
    cell t' n c h w
    = if (c <? feat_num opt) && (cell label_map n 0 h w =? i)%Z
      then match arr_get feat r c with
           | Ok v => v
           | Raise _ => cell t n c h w
           end
      else cell t n c h w.
Proof.
  intros Hrun n c h w Hn Hh Hw. unfold write_feature in Hrun.
  apply write_feature_Ok in Hrun as (_ & Hcell).
  rewrite Hcell by assumption.
  replace (existsb (Nat.eqb c) (seq 0 (feat_num opt)))
    with (c <? feat_num opt); [reflexivity|].
  apply eq_true_iff_eq. rewrite existsb_exists, Nat.ltb_lt. split.
  - intros Hc. exists c. split; [apply in_seq; lia | apply Nat.eqb_refl].
  - intros (x & Hx & Heq). apply in_seq in Hx. apply Nat.eqb_eq in Heq. lia.
Qed.

Lemma write_feature_agree (feat : Array2 F) (r : nat) (i : Z)
    (t t' : Tensor F) :
  write_feature F opt feat r (nonzero (eq_scalar label_map i)) t = Ok t' ->
  agrees_on_labels label_map uninit t ->
  agrees_on_labels label_map uninit t'.
Proof.
  intros Hrun Hagree n h w n' h' w' k Hn Hh Hw Hn' Hh' Hw' Hlab Hbase.
  rewrite !(write_feature_cells feat r i t t' Hrun) by assumption.
  rewrite <- Hlab. rewrite (Hagree n h w n' h' w' k) by assumption.
  reflexivity.
Qed.

Lemma write_feature_untouched (dict : gmap Z (Array2 F)) (feat : Array2 F)
    (r : nat) (i : Z) (t t' : Tensor F) :
  is_Some (dict !! class_of i) ->
  write_feature F opt feat r (nonzero (eq_scalar label_map i)) t = Ok t' ->
  untouched_outside label_map dict uninit t ->
  untouched_outside label_map dict uninit t'.
Proof.
  intros [a Ha] Hrun Hun n k h w Hn Hh Hw Hnone.
  rewrite (write_feature_cells feat r i t t' Hrun) by assumption.
  destruct (Z.eqb_spec (cell label_map n 0 h w) i) as [Heq|_].
  - rewrite Heq in Hnone. congruence.
  - rewrite andb_false_r. apply Hun; assumption.
Qed.

Lemma broadcast_body_agree (z_random : nat -> nat -> F)
    (avg : option (Array2 F))
    (dict : gmap Z (Array2 F)) (random from_avg : bool)
    (st st' : Tensor F * nat) (i : Z) :
  broadcast_body F z_random opt avg dict label_map random from_avg
                 st i = Ok st' ->
  agrees_on_labels label_map uninit (fst st) ->
  agrees_on_labels label_map uninit (fst st').
Proof.
  destruct st as [fm calls]. unfold broadcast_body.
  destruct (dict !! class_of i) as [entry|].
  - intros Hrun. inv_bind Hrun. destruct a as [feat calls'].
    inv_bind Hrun. injection Hrun as <-. simpl.
    apply (write_feature_agree _ _ _ _ _ Ha0).
  - destruct from_avg.
    + intros Hrun. inv_bind Hrun. inv_bind Hrun. inv_bind Hrun.
      injection Hrun as <-. simpl.
      apply (write_feature_agree _ _ _ _ _ Ha1).
    + intros [= <-]. auto.
Qed.

Lemma broadcast_body_untouched (z_random : nat -> nat -> F)
    (avg : option (Array2 F))
    (dict : gmap Z (Array2 F)) (random : bool)
    (st st' : Tensor F * nat) (i : Z) :
  broadcast_body F z_random opt avg dict label_map random false
                 st i = Ok st' ->
  untouched_outside label_map dict uninit (fst st) ->
  untouched_outside label_map dict uninit (fst st').
Proof.
  destruct st as [fm calls]. unfold broadcast_body.
  destruct (dict !! class_of i) as [entry|] eqn:Hkey.
  - intros Hrun. inv_bind Hrun. destruct a as [feat calls'].
    inv_bind Hrun. injection Hrun as <-. simpl.
    eapply write_feature_untouched; [|exact Ha0]; eauto.
  - intros [= <-]. auto.
Qed.

Lemma sample_body_agree (draw : nat -> nat)
    (dict : gmap Z (Array2 F))
    (st st' : Tensor F * nat) (i : Z) :
  sample_body F draw opt dict label_map st i = Ok st' ->
  agrees_on_labels label_map uninit (fst st) ->
  agrees_on_labels label_map uninit (fst st').
Proof.
  destruct st as [fm calls]. unfold sample_body.
  destruct (dict !! class_of i) as [feat|]; [|intros [= <-]; auto].
  destruct (nrows feat =? 0); [discriminate|].
  intros Hrun. inv_bind Hrun. injection Hrun as <-. simpl.
  apply (write_feature_agree _ _ _ _ _ Ha).
Qed.

Lemma sample_body_untouched (draw : nat -> nat)
    (dict : gmap Z (Array2 F))
    (st st' : Tensor F * nat) (i : Z) :
  sample_body F draw opt dict label_map st i = Ok st' ->
  untouched_outside label_map dict uninit (fst st) ->
  untouched_outside label_map dict uninit (fst st').
Proof.
  destruct st as [fm calls]. unfold sample_body.
  destruct (dict !! class_of i) as [feat|] eqn:Hkey; [|intros [= <-]; auto].
  destruct (nrows feat =? 0); [discriminate|].
  intros Hrun. inv_bind Hrun. injection Hrun as <-. simpl.
  eapply write_feature_untouched; [|exact Ha]; eauto.
Qed.

Lemma finish_cell (fm : Tensor F) (n c h w : nat) :
  cell (finish F half opt fm) n c h w
  = if (data_type opt =? 16)%Z then half (cell fm n c h w)
    else cell fm n c h w.
Proof. unfold finish. destruct (data_type opt =? 16)%Z; reflexivity. Qed.

(** Two pixels holding the same value hold the same features wherever the
    storage handed out by the allocator agreed on them: a zeroed buffer is
    enough. *)
Lemma broadcast_features_same_label (z_random : nat -> nat -> F)
    (avg : option (Array2 F))
    (dict : gmap Z (Array2 F)) (random from_avg : bool) (fm : Tensor F) :
  broadcast_features F half uninit z_random opt avg dict label_map
                     random from_avg = Ok fm ->
  agrees_on_labels label_map uninit fm.
Proof.
  unfold broadcast_features. intros Hrun. inv_bind Hrun.
  destruct a as [fm' calls]. injection Hrun as <-.
  assert (Hinv : agrees_on_labels label_map uninit (fst (fm', calls))).
  { eapply (foldM_invariant
              (fun st => agrees_on_labels label_map uninit (fst st)));
      [|idtac|exact Ha].
    - intros x y z _ Hx Hstep. exact (broadcast_body_agree _ _ _ _ _ _ _ _ Hstep Hx).
    - intros n h w n' h' w' k _ _ _ _ _ _ _ Hb. exact Hb. }
  simpl in Hinv.
  intros n h w n' h' w' k Hn Hh Hw Hn' Hh' Hw' Hlab Hbase.
  rewrite !finish_cell.
  rewrite (Hinv n h w n' h' w' k) by assumption. reflexivity.
Qed.

Lemma sample_features_same_label (draw : nat -> nat)
    (dict : gmap Z (Array2 F))
    (fm : Tensor F) :
  sample_features F half uninit draw opt dict label_map = Ok fm ->
  agrees_on_labels label_map uninit fm.
Proof.
  unfold sample_features. intros Hrun. inv_bind Hrun.
  destruct a as [fm' calls]. injection Hrun as <-.
  assert (Hinv : agrees_on_labels label_map uninit (fst (fm', calls))).
  { eapply (foldM_invariant
              (fun st => agrees_on_labels label_map uninit (fst st)));
      [|idtac|exact Ha].
    - intros x y z _ Hx Hstep. exact (sample_body_agree _ _ _ _ _ Hstep Hx).
    - intros n h w n' h' w' k _ _ _ _ _ _ _ Hb. exact Hb. }
  simpl in Hinv.
  intros n h w n' h' w' k Hn Hh Hw Hn' Hh' Hw' Hlab Hbase.
  rewrite !finish_cell.
  rewrite (Hinv n h w n' h' w' k) by assumption. reflexivity.
Qed.

(** The pixels of a class without dictionary entry keep what the storage
    held (rounded when [data_type] is 16): they are zero only if the
    allocator handed out zeros. *)
Lemma broadcast_features_absent (z_random : nat -> nat -> F)
    (avg : option (Array2 F))
    (dict : gmap Z (Array2 F)) (random : bool) (fm : Tensor F) :
  broadcast_features F half uninit z_random opt avg dict label_map
                     random false = Ok fm ->
  forall n k h w,
    n < dimN label_map -> h < dimH label_map -> w < dimW label_map ->
    dict !! class_of (cell label_map n 0 h w) = None ->
    cell fm n k h w
    = if (data_type opt =? 16)%Z then half (uninit n k h w)
      else uninit n k h w.
Proof.
  unfold broadcast_features. intros Hrun. inv_bind Hrun.
  destruct a as [fm' calls]. injection Hrun as <-.
  assert (Hinv : untouched_outside label_map dict uninit (fst (fm', calls))).
  { eapply (foldM_invariant
              (fun st => untouched_outside label_map dict uninit (fst st)));
      [|idtac|exact Ha].
    - intros x y z _ Hx Hstep. exact (broadcast_body_untouched _ _ _ _ _ _ _ Hstep Hx).
    - intros n k h w _ _ _ _. reflexivity. }
  simpl in Hinv. intros n k h w Hn Hh Hw Hnone. rewrite finish_cell.
  rewrite (Hinv n k h w) by assumption. reflexivity.
Qed.

Lemma sample_features_absent (draw : nat -> nat)
    (dict : gmap Z (Array2 F)) (fm : Tensor F) :
  sample_features F half uninit draw opt dict label_map = Ok fm ->
  forall n k h w,
    n < dimN label_map -> h < dimH label_map -> w < dimW label_map ->
    dict !! class_of (cell label_map n 0 h w) = None ->
    cell fm n k h w
    = if (data_type opt =? 16)%Z then half (uninit n k h w)
      else uninit n k h w.
Proof.
  unfold sample_features. intros Hrun. inv_bind Hrun.
  destruct a as [fm' calls]. injection Hrun as <-.
  assert (Hinv : untouched_outside label_map dict uninit (fst (fm', calls))).
  { eapply (foldM_invariant
              (fun st => untouched_outside label_map dict uninit (fst st)));
      [|idtac|exact Ha].
    - intros x y z _ Hx Hstep. exact (sample_body_untouched _ _ _ _ _ Hstep Hx).
    - intros n k h w _ _ _ _. reflexivity. }
  simpl in Hinv. intros n k h w Hn Hh Hw Hnone. rewrite finish_cell.
  rewrite (Hinv n k h w) by assumption. reflexivity.
Qed.
End Broadcast.

(** With a zeroed buffer ([zero_()] after the allocation, as [encode_input]
    and [get_edges] do) the pixels of a class without dictionary entry are
    zero in every channel. *)
Lemma broadcast_features_absent_zeroed (F : Type) (half : F -> F)
    (zero : F) (z_random : nat -> nat -> F) (opt : Opt)
    (label_map : Tensor Z) (avg : option (Array2 F))
    (dict : gmap Z (Array2 F)) (random : bool) (fm : Tensor F) :
  dimC label_map = 1 -> half zero = zero ->
  broadcast_features F half (fun _ _ _ _ => zero) z_random opt avg dict
                     label_map random false = Ok fm ->
  forall n k h w,
    n < dimN label_map -> h < dimH label_map -> w < dimW label_map ->
    dict !! class_of (cell label_map n 0 h w) = None ->
    cell fm n k h w = zero.
Proof.
  intros HC Hhalf Hrun n k h w Hn Hh Hw Hnone.
  rewrite (broadcast_features_absent F half _ opt label_map HC z_random
             avg dict random fm Hrun n k h w Hn Hh Hw Hnone).
  destruct (data_type opt =? 16)%Z; [exact Hhalf | reflexivity].
Qed.


(** C4 on the code: [broadcast_features] and [sample_features] allocate the
    feature map without zeroing it and skip the classes that the dictionary
    lacks; in the example the two pixels hold the same value 3, yet the
    returned feature map holds 7.0 at the first and 8.0 at the second. *)
Theorem C4_same_label_different_features :
  cell ex_map3 0 0 0 0 = cell ex_map3 0 0 0 1
  /\ (exists fm, ex_broadcast = Ok fm
                 /\ cell fm 0 0 0 0 <> cell fm 0 0 0 1)
  /\ (exists fm, ex_sample = Ok fm
                 /\ cell fm 0 0 0 0 <> cell fm 0 0 0 1).
Proof.
  split; [reflexivity|]. split; eexists; (split; [reflexivity|]);
    vm_compute; discriminate.
Qed.

(** C5 on the code: in the example class 3 is present in the map and absent
    from the dictionary, the fallback is disabled and no error is raised, yet
    the returned feature map holds at the pixels of class 3 what the storage
    held, 7.0 and 8.0, not zero. *)
Theorem C5_absent_class_not_zero :
  (∅ : gmap Z (Array2 Z)) !! class_of (cell ex_map3 0 0 0 0) = None
  /\ (exists fm, ex_broadcast = Ok fm
                 /\ cell fm 0 0 0 0 = 7%Z /\ cell fm 0 0 0 1 = 8%Z)
  /\ (exists fm, ex_sample = Ok fm
                 /\ cell fm 0 0 0 0 = 7%Z /\ cell fm 0 0 0 1 = 8%Z).
Proof.
  split; [reflexivity|]. split; eexists; (split; [reflexivity|]);
    vm_compute; auto.
Qed.

(** ** Instances of the theorems on the examples *)

Lemma C7_onehot_argmax_roundtrip_witness :
  exists input_label,
    encode_input ex_opt_inst ex_labels (Some ex_inst) = Ok input_label
    /\ dimN input_label = dimN ex_labels
    /\ dimH input_label = dimH ex_labels
    /\ dimW input_label = dimW ex_labels
    /\ forall n h w,
         n < dimN ex_labels -> h < dimH ex_labels -> w < dimW ex_labels ->
         Z.of_nat (argmax_channel input_label n h w) = cell ex_labels n 0 h w.
Proof.
  apply (C7_onehot_argmax_roundtrip ex_opt_inst ex_labels (Some ex_inst)).
  - discriminate.
  - reflexivity.
  - intros n h w _ _ _. simpl. lia.
  - intros _. exists ex_inst. repeat split.
Defined.

Lemma C8_get_edges_symmetric_witness :
  (dimH (get_edges ex_opt ex_inst) = 1 /\ dimW (get_edges ex_opt ex_inst) = 2)
  /\ cell (get_edges ex_opt ex_inst) 0 0 0 0 = 1%Z
  /\ cell (get_edges ex_opt ex_inst) 0 0 0 1 = 1%Z.
Proof.
  destruct (C8_get_edges_symmetric ex_opt ex_inst 0 0 0 0)
    as ((_ & _ & HH & HW) & _ & _ & _ & Hsym & _).
  - simpl. lia.
  - simpl. lia.
  - split; [split; [exact HH | exact HW]|].
    apply Hsym.
    + simpl. lia.
    + simpl. discriminate.
Defined.

Lemma C10_encode_features_keys_witness :
  (is_Some (ex_dict !! 5%Z) <-> (0 <= 5 < 6)%Z)
  /\ ex_dict !! 2%Z = Some (np_zeros_0 2)
  /\ length (row_of ex_fdiv ex_opt ex_image ex_inst32 5) = 2.
Proof.
  destruct (C10_encode_features_keys Z ex_netE ex_fdiv ex_opt ex_image
              ex_inst32 ex_dict) with (feat_map := ex_image)
    as (Hkeys & _ & Hrows & _ & Hempty).
  - vm_compute. reflexivity.
  - reflexivity.
  - split; [apply Hkeys|]. split.
    + apply Hempty; [simpl; lia|].
      intros i Hi. apply in_values in Hi as (n & c & h & w & _ & Hv).
      simpl in Hv. subst i. discriminate.
    + apply (Hrows 5%Z). apply in_values. exists 0, 0, 0, 0.
      simpl. split; [lia | reflexivity].
Defined.

(** ** Loss names and loss terms *)

(** The number of flags that are set. *)
Lemma init_loss_filter_length {L : Type} (f v s r : bool) (a b c d e x y : L) :
  length (init_loss_filter f v s r a b c d e x y)
  = 3 + Nat.b2n f + Nat.b2n v + Nat.b2n s + Nat.b2n r.
Proof. destruct f, v, s, r; reflexivity. Qed.

(** X1: the loss filter commutes with any relabelling of its seven arguments,
    so the list of names built by [initialize] and the list of losses
    returned by [forward] have the same length, and pairing them position by
    position pairs every kept loss with its own name. *)
Theorem loss_names_aligned {L : Type} (o : LossOpt) (a b c d e x y : L) :
  length (loss_names o) = length (loss_filter o a b c d e x y)
  /\ combine (loss_names o) (loss_filter o a b c d e x y)
     = loss_filter o (G_GAN_Encode, a) (G_GAN_Feat, b) (G_VGG, c)
                     (G_STYLE_VGG, d) (G_RECON, e) (D_real, x) (D_fake, y)
  /\ length (loss_names o)
     = 3 + Nat.b2n (negb (no_ganFeat_loss o)) + Nat.b2n (negb (no_vgg_loss o))
       + Nat.b2n (negb (no_style_loss o)) + Nat.b2n (negb (no_recon_loss o)).
Proof.
  destruct o as [[] [] [] []]; repeat split; reflexivity.
Qed.

(** X2: when the feature-matching loops add a term or the feature-matching
    loss is disabled, [forward] returns a loss list, no term of the list is the integer 0 a
    disabled loss is initialised with, and every term was unsqueezed exactly
    once, except the perceptual term [G_VGG]: it is not unsqueezed at all when
    the style loss is enabled and unsqueezed twice when it is not. *)
Theorem forward_losses_unsqueezed {V : Type} (o : LossOpt)
    (d_fake d_real g_gan : V) (feat_sum : loss_term V) (vgg style recon : V)
    (r : nat) (fv : V) :
  (no_ganFeat_loss o = false -> feat_sum = LossTensor r fv) ->
  exists losses,
    forward_losses o d_fake d_real g_gan feat_sum vgg style recon = Ok losses
    /\ length losses = length (loss_names o)
    /\ ~ In IntZero losses
    /\ forall name n v,
         In (name, LossTensor n v) (combine (loss_names o) losses) ->
         match name with
         | G_VGG => n = (if no_style_loss o then 2 else 0) /\ v = vgg
         | G_GAN_Feat => n = S r /\ v = fv
         | G_GAN_Encode => n = 1 /\ v = g_gan
         | G_STYLE_VGG => n = 1 /\ v = style
         | G_RECON => n = 1 /\ v = recon
         | D_real => n = 1 /\ v = d_real
         | D_fake => n = 1 /\ v = d_fake
         end.
Proof.
  intros Hfeat. destruct o as [[] [] [] []]; simpl in Hfeat;
    try rewrite (Hfeat eq_refl);
    eexists; (split; [reflexivity|]); (split; [reflexivity|]); split;
    try (simpl; intuition discriminate);
    intros name n v Hin; simpl in Hin;
    repeat (destruct Hin as [Hin|Hin];
            [injection Hin as <- <- <-; auto|]); destruct Hin.
Qed.

Lemma forward_losses_unsqueezed_witness :
  exists losses,
    forward_losses (mkLossOpt false false false false) 1%Z 2%Z 3%Z
                   (LossTensor 0 4%Z) 5%Z 6%Z 7%Z = Ok losses
    /\ length losses
       = length (loss_names (mkLossOpt false false false false))
    /\ ~ In IntZero losses
    /\ forall name n v,
         In (name, LossTensor n v)
            (combine (loss_names (mkLossOpt false false false false))
                     losses) ->
         match name with
         | G_VGG => n = 0 /\ v = 5%Z
         | G_GAN_Feat => n = 1 /\ v = 4%Z
         | G_GAN_Encode => n = 1 /\ v = 3%Z
         | G_STYLE_VGG => n = 1 /\ v = 6%Z
         | G_RECON => n = 1 /\ v = 7%Z
         | D_real => n = 1 /\ v = 2%Z
         | D_fake => n = 1 /\ v = 1%Z
         end.
Proof.
  apply (forward_losses_unsqueezed (mkLossOpt false false false false)
           1%Z 2%Z 3%Z (LossTensor 0 4%Z) 5%Z 6%Z 7%Z 0 4%Z).
  intros _. reflexivity.
Defined.

(** ** More on the edge map *)

Lemma get_edges_zero (opt : Opt) (t : Tensor Z) (n c h w : nat) :
  h < dimH t -> w < dimW t ->
  cell (get_edges opt t) n c h w = 0%Z <-> ~ has_other_neighbour t n c h w.
Proof.
  intros Hh Hw. rewrite get_edges_cell.
  rewrite <- (edge_mask_true t n c h w Hh Hw).
  destruct (cell (edge_mask t) n c h w); simpl; split; congruence.
Qed.

(** X3: the edge map has the sizes of the instance map, and its plane
    [(n, c)] is zero at every one of its pixels exactly when the instance map
    is constant on that plane. *)
Theorem get_edges_zero_iff_constant (opt : Opt) (t : Tensor Z) (n c : nat) :
  (dimN (get_edges opt t) = dimN t /\ dimC (get_edges opt t) = dimC t
   /\ dimH (get_edges opt t) = dimH t /\ dimW (get_edges opt t) = dimW t)
  /\ ((forall h w, h < dimH (get_edges opt t) -> w < dimW (get_edges opt t) ->
                   cell (get_edges opt t) n c h w = 0%Z)
      <-> (forall h w h' w',
             h < dimH t -> w < dimW t -> h' < dimH t -> w' < dimW t ->
             cell t n c h w = cell t n c h' w')).
Proof.
  split; [apply get_edges_dims|].
  destruct (get_edges_dims opt t) as (_ & _ & -> & ->).
  split.
  - intros Hzero.
    assert (Hrow : forall h w, h < dimH t -> w < dimW t ->
              cell t n c h w = cell t n c h 0).
    { intros h w Hh. induction w as [|w IH]; intros Hw; [reflexivity|].
      rewrite <- IH by lia.
      destruct (Z.eq_dec (cell t n c h (S w)) (cell t n c h w)) as [|Hne];
        [assumption|].
      exfalso. apply (proj1 (get_edges_zero opt t n c h (S w) Hh Hw)).
      + apply Hzero; assumption.
      + left. split; [lia|]. replace (S w - 1) with w by lia. congruence. }
    assert (Hcol : forall h, h < dimH t -> 0 < dimW t ->
              cell t n c h 0 = cell t n c 0 0).
    { intros h. induction h as [|h IH]; intros Hh Hw; [reflexivity|].
      rewrite <- IH by lia.
      destruct (Z.eq_dec (cell t n c (S h) 0) (cell t n c h 0)) as [|Hne];
        [assumption|].
      exfalso. apply (proj1 (get_edges_zero opt t n c (S h) 0 Hh Hw)).
      + apply Hzero; assumption.
      + right. right. left. split; [lia|].
        replace (S h - 1) with h by lia. congruence. }
    intros h w h' w' Hh Hw Hh' Hw'.
    rewrite (Hrow h w), (Hrow h' w'), (Hcol h), (Hcol h') by lia.
    reflexivity.
  - intros Hconst h w Hh Hw. apply get_edges_zero; [assumption..|].
    intros [[H1 Hne]|[[H1 Hne]|[[H1 Hne]|[H1 Hne]]]]; apply Hne;
      apply Hconst; lia.
Qed.

(** ** More on the input encoder *)

Lemma scatter_one_dims (index self t : Tensor Z) (ix : Idx) :
  scatter_one index self ix = Ok t ->
  dimN t = dimN self /\ dimC t = dimC self /\ dimH t = dimH self
  /\ dimW t = dimW self.
Proof.
  destruct ix as [[[n c] h] w]. unfold scatter_one.
  destruct (_ && _); [|discriminate]. unfold tset.
  destruct (in_bounds _ _); [|discriminate]. intros [= <-]. auto.
Qed.

Lemma scatter_one_raises (index self : Tensor Z) (ix : Idx) (e : exn) :
  scatter_one index self ix = Raise e -> e = RuntimeError.
Proof.
  destruct ix as [[[n c] h] w]. unfold scatter_one.
  destruct (_ && _); [|congruence].
  destruct (tset _ _ _); [discriminate | congruence].
Qed.

(** One index outside the channel range makes the whole [scatter_] fail. *)
Lemma scatter_fold_error (index : Tensor Z) (l : list Idx) :
  forall self : Tensor Z,
    (exists ix, In ix l
                /\ ((at_ index ix < 0)%Z
                    \/ (Z.of_nat (dimC self) <= at_ index ix)%Z)) ->
    foldM (scatter_one index) self l = Raise RuntimeError.
Proof.
  induction l as [|hd l IH]; intros self (ix & Hin & Hbad);
    [destruct Hin|].
  simpl. destruct (scatter_one index self hd) as [t1|e] eqn:Hstep.
  - simpl. destruct Hin as [-> | Hin].
    + exfalso. destruct ix as [[[n c] h] w]. unfold scatter_one in Hstep.
      destruct (Z.leb_spec 0 (at_ index (n, c, h, w))),
               (Z.ltb_spec (at_ index (n, c, h, w)) (Z.of_nat (dimC self)));
        simpl in Hstep; try discriminate; lia.
    + apply IH. exists ix. split; [exact Hin|].
      apply scatter_one_dims in Hstep as (_ & -> & _). exact Hbad.
  - simpl. apply scatter_one_raises in Hstep. congruence.
Qed.

(** X4: with a categorical label space, a label outside [0, label_nc) makes
    [encode_input] fail with the run-time error of [scatter_], whatever the
    instance map is. *)
Theorem encode_input_label_out_of_range (opt : Opt) (label_map : Tensor Z)
    (inst_map : option (Tensor Z)) (n c h w : nat) :
  label_nc opt <> 0 ->
  n < dimN label_map -> c < dimC label_map -> h < dimH label_map ->
  w < dimW label_map ->
  (cell label_map n c h w < 0)%Z
  \/ (Z.of_nat (label_nc opt) <= cell label_map n c h w)%Z ->
  encode_input opt label_map inst_map = Raise RuntimeError.
Proof.
  intros Hnc Hn Hc Hh Hw Hbad. unfold encode_input.
  destruct (Nat.eqb_spec (label_nc opt) 0); [contradiction|].
  unfold scatter_. rewrite scatter_fold_error; [reflexivity|].
  exists (n, c, h, w). split; [apply in_coords; lia | exact Hbad].
Qed.

Lemma encode_input_label_out_of_range_witness :
  encode_input (mkOpt 5 1 false 32) ex_labels (Some ex_inst)
  = Raise RuntimeError.
Proof.
  apply (encode_input_label_out_of_range (mkOpt 5 1 false 32) ex_labels
           (Some ex_inst) 0 0 0 0); simpl; lia.
Defined.

(** X5: for a one-channel label map with labels in [0, label_nc), label_nc
    nonzero, and an instance map of the same sizes, [encode_input] returns the
    label_nc one-hot channels followed by the channels of the edge map: channel
    k below label_nc holds 1.0 where the label is k and 0.0 elsewhere, and
    channel label_nc + c holds the edge map of channel c of the instance
    map. *)
Theorem encode_input_cells (opt : Opt) (label_map inst : Tensor Z) :
  label_nc opt <> 0 -> no_instance opt = false ->
  dimC label_map = 1 ->
  (forall n h w, n < dimN label_map -> h < dimH label_map ->
                 w < dimW label_map ->
                 (0 <= cell label_map n 0 h w < Z.of_nat (label_nc opt))%Z) ->
  dimN inst = dimN label_map -> dimH inst = dimH label_map ->
  dimW inst = dimW label_map ->
  exists input_label,
    encode_input opt label_map (Some inst) = Ok input_label
    /\ dimN input_label = dimN label_map
    /\ dimC input_label = label_nc opt + dimC inst
    /\ dimH input_label = dimH label_map
    /\ dimW input_label = dimW label_map
    /\ forall n h w,
         n < dimN label_map -> h < dimH label_map -> w < dimW label_map ->
         (forall k, k < label_nc opt ->
            cell input_label n k h w
            = if (cell label_map n 0 h w =? Z.of_nat k)%Z then 1%Z else 0%Z)
         /\ (forall c, cell input_label n (label_nc opt + c) h w
                       = cell (get_edges opt inst) n c h w).
Proof.
  intros Hnc Hno HC Hrange HN HH HW.
  destruct (scatter_onehot label_map (label_nc opt) HC Hrange)
    as (t & Hrun & HNt & HCt & HHt & HWt & Hcell).
  unfold encode_input.
  destruct (Nat.eqb_spec (label_nc opt) 0) as [|_]; [contradiction|].
  rewrite Hrun, Hno. simpl.
  destruct (get_edges_dims opt inst) as (EN & EC & EH & EW).
  unfold cat1. rewrite EN, EH, EW, HNt, HHt, HWt, HN, HH, HW.
  rewrite !Nat.eqb_refl. simpl.
  eexists. split; [reflexivity|]. simpl.
  repeat split; try congruence.
  - intros k Hk. rewrite HCt. apply Nat.ltb_lt in Hk. rewrite Hk.
    apply Hcell; assumption.
  - intros c. rewrite HCt.
    destruct (Nat.ltb_spec (label_nc opt + c) (label_nc opt)); [lia|].
    f_equal. lia.
Qed.

Lemma encode_input_cells_witness :
  exists input_label,
    encode_input ex_opt_inst ex_labels (Some ex_inst) = Ok input_label
    /\ dimN input_label = dimN ex_labels
    /\ dimC input_label = label_nc ex_opt_inst + dimC ex_inst
    /\ dimH input_label = dimH ex_labels
    /\ dimW input_label = dimW ex_labels
    /\ forall n h w,
         n < dimN ex_labels -> h < dimH ex_labels -> w < dimW ex_labels ->
         (forall k, k < label_nc ex_opt_inst ->
            cell input_label n k h w
            = if (cell ex_labels n 0 h w =? Z.of_nat k)%Z then 1%Z else 0%Z)
         /\ (forall c, cell input_label n (label_nc ex_opt_inst + c) h w
                       = cell (get_edges ex_opt_inst ex_inst) n c h w).
Proof.
  apply (encode_input_cells ex_opt_inst ex_labels ex_inst);
    try reflexivity.
  - discriminate.
  - intros n h w _ _ _. simpl. lia.
Defined.

(** ** What the broadcast writes *)

Section BroadcastCells.
Variable F : Type.
Variable half : F -> F.
Variable uninit : nat -> nat -> nat -> nat -> F.
Variable opt : Opt.
Variable label_map : Tensor Z.
Hypothesis one_channel : dimC label_map = 1.

(** A successful write has read every channel of row [r]. *)
Lemma write_feature_reads (feat : Array2 F) (r : nat) (idx : list Idx)
    (t t' : Tensor F) (k : nat) :
  write_feature F opt feat r idx t = Ok t' ->
  k < feat_num opt -> exists v, arr_get feat r k = Ok v.
Proof.
  unfold write_feature. intros Hrun Hk.
  assert (Hin : In k (seq 0 (feat_num opt))) by (apply in_seq; lia).
  revert t Hrun Hin. generalize (seq 0 (feat_num opt)).
  induction l as [|k' l IH]; intros t Hrun Hin; [destruct Hin|].
  simpl in Hrun. inv_bind Hrun. inv_bind Ha. destruct Hin as [-> | Hin].
  - eauto.
  - apply (IH a); assumption.
Qed.

Lemma write_feature_dims (feat : Array2 F) (r : nat) (i : Z)
    (t t' : Tensor F) :
  write_feature F opt feat r (nonzero (eq_scalar label_map i)) t = Ok t' ->
  dimN t' = dimN t /\ dimC t' = dimC t /\ dimH t' = dimH t
  /\ dimW t' = dimW t.
Proof.
  unfold write_feature. intros Hrun.
  apply (write_feature_Ok F half uninit label_map one_channel) in Hrun
    as (Hd & _). exact Hd.
Qed.

(** A loop all of whose iterations either leave the feature map alone or
    write one row of some array over the pixels of their value, and whose
    iteration for value [j] writes a row [r], with [R r], of the array [feat]:
    when [j] is among the values, all pixels of value [j] hold that one row
    in the end. *)
Lemma loop_cells {S : Type} (body : Tensor F * S -> Z -> Result (Tensor F * S))
    (j : Z) (feat : Array2 F) (R : nat -> Prop) :
  (forall st i st1, body st i = Ok st1 ->
     fst st1 = fst st
     \/ exists f r,
          write_feature F opt f r (nonzero (eq_scalar label_map i)) (fst st)
          = Ok (fst st1)) ->
  (forall st st1, body st j = Ok st1 ->
     exists r, R r
       /\ write_feature F opt feat r (nonzero (eq_scalar label_map j))
                        (fst st) = Ok (fst st1)) ->
  forall (l : list Z) (st st' : Tensor F * S),
    foldM body st l = Ok st' ->
    (In j l ->
     exists r, R r
       /\ forall n h w k,
            n < dimN label_map -> h < dimH label_map -> w < dimW label_map ->
            cell label_map n 0 h w = j -> k < feat_num opt ->
            exists v, arr_get feat r k = Ok v
                      /\ cell (fst st') n k h w = v)
    /\ (~ In j l ->
        forall n h w k,
          n < dimN label_map -> h < dimH label_map -> w < dimW label_map ->
          cell label_map n 0 h w = j ->
          cell (fst st') n k h w = cell (fst st) n k h w).
Proof.
  intros Hany Hj. induction l as [|i l IH]; intros st st' Hrun.
  - injection Hrun as <-. split; [intros [] | reflexivity].
  - simpl in Hrun. inv_bind Hrun. rename a into st1, Ha into Hstep.
    destruct (IH st1 st' Hrun) as (Hin & Hout).
    assert (Hother : i <> j ->
              forall n h w k,
                n < dimN label_map -> h < dimH label_map ->
                w < dimW label_map -> cell label_map n 0 h w = j ->
                cell (fst st1) n k h w = cell (fst st) n k h w).
    { intros Hne n h w k Hn Hh Hw Hlab.
      destruct (Hany st i st1 Hstep) as [-> | (f & r & Hw')];
        [reflexivity|].
      rewrite (write_feature_cells F half uninit opt label_map one_channel
                 f r i _ _ Hw') by assumption.
      destruct (Z.eqb_spec (cell label_map n 0 h w) i); [congruence|].
      rewrite andb_false_r. reflexivity. }
    destruct (in_dec Z.eq_dec j l) as [Hl | Hl].
    + split; [intros _; exact (Hin Hl)|]. intros Hnot. exfalso.
      apply Hnot. right. exact Hl.
    + split.
      * intros [-> | Hl']; [|contradiction].
        destruct (Hj st st1 Hstep) as (r & HR & Hw').
        exists r. split; [exact HR|].
        intros n h w k Hn Hh Hw Hlab Hk.
        destruct (write_feature_reads _ _ _ _ _ k Hw' Hk) as (v & Hv).
        exists v. split; [exact Hv|].
        rewrite (Hout Hl n h w k) by assumption.
        rewrite (write_feature_cells F half uninit opt label_map one_channel
                   feat r j _ _ Hw') by assumption.
        apply Nat.ltb_lt in Hk. rewrite Hk, Hlab, Z.eqb_refl, Hv.
        reflexivity.
      * intros Hnot n h w k Hn Hh Hw Hlab.
        rewrite (Hout Hl n h w k) by assumption.
        apply Hother; try assumption. intros ->. apply Hnot. left.
        reflexivity.
Qed.

Lemma pixel_value_in_unique (n h w : nat) :
  n < dimN label_map -> h < dimH label_map -> w < dimW label_map ->
  In (cell label_map n 0 h w) (np_unique (values label_map)).
Proof.
  intros Hn Hh Hw. apply np_unique_In, in_values.
  exists n, 0, h, w. split; [lia | reflexivity].
Qed.

Lemma broadcast_body_writes (z_random : nat -> nat -> F)
    (avg : option (Array2 F)) (dict : gmap Z (Array2 F))
    (random from_avg : bool) (st st1 : Tensor F * nat) (i : Z) :
  broadcast_body F z_random opt avg dict label_map random from_avg st i
  = Ok st1 ->
  fst st1 = fst st
  \/ exists f r,
       write_feature F opt f r (nonzero (eq_scalar label_map i)) (fst st)
       = Ok (fst st1).
Proof.
  destruct st as [fm calls]. unfold broadcast_body.
  destruct (dict !! class_of i) as [entry|].
  - intros Hrun. inv_bind Hrun. destruct a as [feat calls'].
    inv_bind Hrun. injection Hrun as <-. right. exists feat, 0. exact Ha0.
  - destruct from_avg.
    + intros Hrun. inv_bind Hrun. inv_bind Hrun. inv_bind Hrun.
      injection Hrun as <-. right. exists a0, 0. exact Ha1.
    + intros [= <-]. left. reflexivity.
Qed.

(** X6: in the feature map returned by [broadcast_features], every pixel
    whose class has a dictionary entry (and is not the class redrawn at
    random) holds, in each of the feat_num channels, the value of row 0 of
    that entry (rounded when [data_type] is 16). *)
Theorem broadcast_features_writes_entry (z_random : nat -> nat -> F)
    (avg : option (Array2 F)) (dict : gmap Z (Array2 F))
    (random from_avg : bool) (fm : Tensor F) (j : Z) (entry : Array2 F) :
  broadcast_features F half uninit z_random opt avg dict label_map
                     random from_avg = Ok fm ->
  dict !! class_of j = Some entry ->
  (class_of j =? 6)%Z && random = false ->
  forall n h w k,
    n < dimN label_map -> h < dimH label_map -> w < dimW label_map ->
    cell label_map n 0 h w = j -> k < feat_num opt ->
    exists v,
      arr_get entry 0 k = Ok v
      /\ cell fm n k h w
         = if (data_type opt =? 16)%Z then half v else v.
Proof.
  unfold broadcast_features. intros Hrun Hentry Hnot n h w k Hn Hh Hw Hlab Hk.
  inv_bind Hrun. destruct a as [fm' calls]. injection Hrun as <-.
  destruct (loop_cells
              (broadcast_body F z_random opt avg dict label_map random
                              from_avg)
              j entry (fun r => r = 0)) with (l := np_unique (values label_map))
              (st := (new_tensor F uninit (dimN label_map) (feat_num opt)
                                 (dimH label_map) (dimW label_map), 0))
              (st' := (fm', calls))
    as (Hin & _).
  - intros st i st1. apply broadcast_body_writes.
  - intros [t c] st1. unfold broadcast_body. rewrite Hentry, Hnot.
    intros Hstep. simpl in Hstep. inv_bind Hstep.
    injection Hstep as <-. exists 0. split; [reflexivity | exact Ha0].
  - exact Ha.
  - destruct Hin as (r & -> & Hcells).
    { rewrite <- Hlab. apply pixel_value_in_unique; assumption. }
    destruct (Hcells n h w k Hn Hh Hw Hlab Hk) as (v & Hv & Hc).
    exists v. split; [exact Hv|]. rewrite finish_cell.
    simpl in Hc. rewrite Hc. reflexivity.
Qed.

(** X7: with the average fallback enabled, every pixel whose class has no
    dictionary entry holds, in each of the feat_num channels, the value of the
    row of [avg_features] of its class. *)
Theorem broadcast_features_writes_average (z_random : nat -> nat -> F)
    (avg : Array2 F) (dict : gmap Z (Array2 F)) (random : bool)
    (fm : Tensor F) (j : Z) :
  broadcast_features F half uninit z_random opt (Some avg) dict label_map
                     random true = Ok fm ->
  dict !! class_of j = None ->
  forall n h w k,
    n < dimN label_map -> h < dimH label_map -> w < dimW label_map ->
    cell label_map n 0 h w = j -> k < feat_num opt ->
    exists row v,
      arr_row avg (class_of j) = Ok row
      /\ arr_get row 0 k = Ok v
      /\ cell fm n k h w
         = if (data_type opt =? 16)%Z then half v else v.
Proof.
  unfold broadcast_features. intros Hrun Hentry n h w k Hn Hh Hw Hlab Hk.
  inv_bind Hrun. destruct a as [fm' calls]. injection Hrun as <-.
  assert (Hj : In j (np_unique (values label_map))).
  { rewrite <- Hlab. apply pixel_value_in_unique; assumption. }
  assert (Hrow : exists row, arr_row avg (class_of j) = Ok row).
  { destruct (arr_row avg (class_of j)) as [row|e] eqn:Hr; [eauto|].
    exfalso. revert Ha Hj.
    generalize (new_tensor F uninit (dimN label_map) (feat_num opt)
                           (dimH label_map) (dimW label_map), 0).
    generalize (np_unique (values label_map)).
    induction l as [|i l IH]; intros st Hrun Hin; [destruct Hin|].
    simpl in Hrun. inv_bind Hrun. destruct Hin as [-> | Hin].
    - destruct st as [t c]. unfold broadcast_body in Ha.
      rewrite Hentry in Ha. simpl in Ha. rewrite Hr in Ha. discriminate.
    - apply (IH a); assumption. }
  destruct Hrow as (row & Hrow).
  destruct (loop_cells
              (broadcast_body F z_random opt (Some avg) dict label_map random
                              true)
              j row (fun r => r = 0)) with (l := np_unique (values label_map))
              (st := (new_tensor F uninit (dimN label_map) (feat_num opt)
                                 (dimH label_map) (dimW label_map), 0))
              (st' := (fm', calls))
    as (Hin & _).
  - intros st i st1. apply broadcast_body_writes.
  - intros [t c] st1. unfold broadcast_body. rewrite Hentry. simpl.
    rewrite Hrow. intros Hstep. simpl in Hstep. inv_bind Hstep.
    injection Hstep as <-. exists 0. split; [reflexivity | exact Ha0].
  - exact Ha.
  - destruct (Hin Hj) as (r & -> & Hcells).
    destruct (Hcells n h w k Hn Hh Hw Hlab Hk) as (v & Hv & Hc).
    exists row, v. split; [exact Hrow|]. split; [exact Hv|].
    rewrite finish_cell. simpl in Hc. rewrite Hc. reflexivity.
Qed.

Lemma sample_body_writes (draw : nat -> nat) (dict : gmap Z (Array2 F))
    (st st1 : Tensor F * nat) (i : Z) :
  sample_body F draw opt dict label_map st i = Ok st1 ->
  fst st1 = fst st
  \/ exists f r,
       write_feature F opt f r (nonzero (eq_scalar label_map i)) (fst st)
       = Ok (fst st1).
Proof.
  destruct st as [fm calls]. unfold sample_body.
  destruct (dict !! class_of i) as [feat|]; [|intros [= <-]; left; auto].
  destruct (nrows feat =? 0); [discriminate|].
  intros Hrun. inv_bind Hrun. injection Hrun as <-. right.
  exists feat, (draw calls mod nrows feat). exact Ha.
Qed.

(** X8: in the feature map returned by [sample_features], all pixels of one
    instance value whose class has clusters hold one and the same row of the
    class's cluster array, in each of the feat_num channels: the sampled
    features are never mixed from several clusters nor invented. *)
Theorem sample_features_writes_cluster (draw : nat -> nat)
    (dict : gmap Z (Array2 F)) (fm : Tensor F) (j : Z) (feat : Array2 F) :
  sample_features F half uninit draw opt dict label_map = Ok fm ->
  dict !! class_of j = Some feat ->
  In j (values label_map) ->
  exists r,
    r < nrows feat
    /\ forall n h w k,
         n < dimN label_map -> h < dimH label_map -> w < dimW label_map ->
         cell label_map n 0 h w = j -> k < feat_num opt ->
         exists v,
           arr_get feat r k = Ok v
           /\ cell fm n k h w
              = if (data_type opt =? 16)%Z then half v else v.
Proof.
  unfold sample_features. intros Hrun Hentry Hj.
  inv_bind Hrun. destruct a as [fm' calls]. injection Hrun as <-.
  destruct (loop_cells (sample_body F draw opt dict label_map)
              j feat (fun r => r < nrows feat))
    with (l := np_unique (values label_map))
         (st := (new_tensor F uninit (dimN label_map) (feat_num opt)
                            (dimH label_map) (dimW label_map), 0))
         (st' := (fm', calls))
    as (Hin & _).
  - intros st i st1. apply sample_body_writes.
  - intros [t c] st1. unfold sample_body. rewrite Hentry.
    destruct (Nat.eqb_spec (nrows feat) 0) as [|Hne]; [discriminate|].
    intros Hstep. inv_bind Hstep. injection Hstep as <-.
    exists (draw c mod nrows feat). split; [|exact Ha0].
    apply Nat.mod_upper_bound. exact Hne.
  - exact Ha.
  - destruct Hin as (r & Hr & Hcells); [apply np_unique_In; exact Hj|].
    exists r. split; [exact Hr|]. intros n h w k Hn Hh Hw Hlab Hk.
    destruct (Hcells n h w k Hn Hh Hw Hlab Hk) as (v & Hv & Hc).
    exists v. split; [exact Hv|]. rewrite finish_cell.
    simpl in Hc. rewrite Hc. reflexivity.
Qed.

(** *** When the broadcast returns *)

Lemma foldM_Raise {A B : Type} (f : B -> A -> Result B) (l : list A)
    (b : B) (e : exn) :
  foldM f b l = Raise e -> exists b' x, In x l /\ f b' x = Raise e.
Proof.
  revert b. induction l as [|x l IH]; simpl; intros b Hrun; [discriminate|].
  destruct (f b x) as [b1|e1] eqn:Hstep; simpl in Hrun.
  - destruct (IH b1 Hrun) as (b' & y & Hy & Hf). exists b', y. auto.
  - injection Hrun as ->. exists b, x. auto.
Qed.

Lemma arr_get_Raise {A : Type} (a : Array2 A) (r k : nat) (e : exn) :
  arr_get a r k = Raise e -> e = IndexError.
Proof.
  unfold arr_get. destruct (nth_error (rows a) r) as [row|]; [|congruence].
  destruct (k <? ncols a); [|congruence].
  destruct (nth_error row k); congruence.
Qed.

Lemma index_put_Raise (t : Tensor F) (idx : list Idx) (v : F) (e : exn) :
  index_put t idx v = Raise e -> e = IndexError.
Proof.
  unfold index_put. intros Hrun.
  apply foldM_Raise in Hrun as (t' & ix & _ & Hset).
  unfold tset in Hset. destruct (in_bounds t' ix); congruence.
Qed.

Lemma write_feature_Raise (feat : Array2 F) (r : nat) (idx : list Idx)
    (t : Tensor F) (e : exn) :
  write_feature F opt feat r idx t = Raise e -> e = IndexError.
Proof.
  unfold write_feature. intros Hrun.
  apply foldM_Raise in Hrun as (t' & k & _ & Hstep).
  destruct (arr_get feat r k) as [v|e'] eqn:Hget; simpl in Hstep.
  - apply index_put_Raise in Hstep. exact Hstep.
  - apply arr_get_Raise in Hget. congruence.
Qed.

Lemma index_put_total (idx : list Idx) (v : F) :
  forall t : Tensor F,
    (forall ix, In ix idx -> in_bounds t ix = true) ->
    exists t', index_put t idx v = Ok t'.
Proof.
  unfold index_put. induction idx as [|ix idx IH]; intros t Hb.
  - exists t. reflexivity.
  - cbn [foldM]. destruct (tset t ix v) as [t1|e] eqn:Hset.
    + cbn [mbind Result_bind]. apply IH. intros jx Hj.
      specialize (Hb jx (or_intror Hj)).
      apply (tset_Ok F) in Hset as ((HN & HC & HH & HW) & _).
      destruct jx as [[[n c] h] w]. unfold in_bounds in *.
      rewrite HN, HC, HH, HW. exact Hb.
    + unfold tset in Hset. rewrite (Hb ix (or_introl eq_refl)) in Hset.
      discriminate.
Qed.

Lemma write_feature_total (feat : Array2 F) (r : nat) (i : Z)
    (t : Tensor F) :
  (forall k, k < feat_num opt -> exists v, arr_get feat r k = Ok v) ->
  dimN t = dimN label_map -> dimC t = feat_num opt ->
  dimH t = dimH label_map -> dimW t = dimW label_map ->
  exists t', write_feature F opt feat r (nonzero (eq_scalar label_map i)) t
             = Ok t'.
Proof.
  unfold write_feature. intros Hread HN HC HH HW.
  assert (Hks : forall k, In k (seq 0 (feat_num opt)) -> k < feat_num opt).
  { intros k Hk. apply in_seq in Hk. lia. }
  revert t HN HC HH HW Hks. generalize (seq 0 (feat_num opt)).
  induction l as [|k l IH]; intros t HN HC HH HW Hks.
  - exists t. reflexivity.
  - simpl. destruct (Hread k (Hks k (or_introl eq_refl))) as (v & Hv).
    rewrite Hv. simpl.
    destruct (index_put_total
                (map (shift_channel k) (nonzero (eq_scalar label_map i))) v t)
      as (t1 & Ht1).
    { intros ix Hix. apply in_map_iff in Hix as ([[[n c] h] w] & <- & Hin).
      apply in_nonzero_eq in Hin as (Hb & _). simpl.
      assert (Hk := Hks k (or_introl eq_refl)).
      rewrite !andb_true_iff, !Nat.ltb_lt. lia. }
    rewrite Ht1. simpl.
    apply (index_put_Ok F half) in Ht1 as ((HN1 & HC1 & HH1 & HW1) & _).
    apply IH; try congruence. intros k' Hk'. apply Hks. right. exact Hk'.
Qed.

(** X9: without random redraw and without the average fallback,
    [broadcast_features] returns whenever row 0 of the dictionary entry of
    every class of the map has feat_num readable columns; the returned map has
    the batch and spatial sizes of the label map and feat_num channels; and
    the only exception the call can raise is an index error. *)
Theorem broadcast_features_returns (z_random : nat -> nat -> F)
    (avg : option (Array2 F)) (dict : gmap Z (Array2 F)) :
  (forall j entry k,
     In j (values label_map) -> dict !! class_of j = Some entry ->
     k < feat_num opt -> exists v, arr_get entry 0 k = Ok v) ->
  (exists fm,
     broadcast_features F half uninit z_random opt avg dict label_map
                        false false = Ok fm
     /\ dimN fm = dimN label_map /\ dimC fm = feat_num opt
     /\ dimH fm = dimH label_map /\ dimW fm = dimW label_map)
  /\ forall dict' e,
       broadcast_features F half uninit z_random opt avg dict' label_map
                          false false = Raise e ->
       e = IndexError.
Proof.
  intros Hwide. split.
  - unfold broadcast_features.
    assert (Hloop : forall l (st : Tensor F * nat),
              (forall j, In j l -> In j (values label_map)) ->
              dimN (fst st) = dimN label_map ->
              dimC (fst st) = feat_num opt ->
              dimH (fst st) = dimH label_map ->
              dimW (fst st) = dimW label_map ->
              exists st',
                foldM (broadcast_body F z_random opt avg dict label_map
                                      false false) st l = Ok st'
                /\ dimN (fst st') = dimN label_map
                /\ dimC (fst st') = feat_num opt
                /\ dimH (fst st') = dimH label_map
                /\ dimW (fst st') = dimW label_map).
    { induction l as [|i l IH]; intros [t c] Hl HN HC HH HW;
        simpl in HN, HC, HH, HW.
      - exists (t, c). simpl. auto.
      - simpl foldM. unfold broadcast_body at 1.
        destruct (dict !! class_of i) as [entry|] eqn:Hentry.
        + rewrite andb_false_r. simpl.
          destruct (write_feature_total entry 0 i t) as (t1 & Ht1);
            try assumption.
          { intros k Hk. apply (Hwide i entry k); auto. apply Hl. left.
            reflexivity. }
          rewrite Ht1. simpl.
          apply write_feature_dims in Ht1 as (HN1 & HC1 & HH1 & HW1).
          apply IH; simpl; try congruence.
          intros j Hj. apply Hl. right. exact Hj.
        + simpl. apply IH; try assumption.
          intros j Hj. apply Hl. right. exact Hj. }
    destruct (Hloop (np_unique (values label_map))
                (new_tensor F uninit (dimN label_map) (feat_num opt)
                            (dimH label_map) (dimW label_map), 0))
      as ([fm' calls] & Hrun & HN & HC & HH & HW); try reflexivity.
    { intros j Hj. apply np_unique_In. exact Hj. }
    rewrite Hrun. simpl. eexists. split; [reflexivity|].
    unfold finish. destruct (data_type opt =? 16)%Z; simpl; auto.
  - intros dict' e. unfold broadcast_features. intros Hrun.
    destruct (foldM _ _ _) as [[fm' calls]|e'] eqn:Hloop; simpl in Hrun;
      [discriminate|]. injection Hrun as ->.
    apply foldM_Raise in Hloop as ([t c] & i & _ & Hstep).
    unfold broadcast_body in Hstep.
    destruct (dict' !! class_of i) as [entry|]; [|discriminate].
    rewrite andb_false_r in Hstep. simpl in Hstep.
    destruct (write_feature F opt entry 0 _ t) as [t1|e1] eqn:Hw;
      simpl in Hstep; [discriminate|]. injection Hstep as ->.
    apply write_feature_Raise in Hw. exact Hw.
Qed.

Lemma foldM_Ok_step {A B : Type} (f : B -> A -> Result B) (l : list A)
    (b b' : B) (x : A) :
  foldM f b l = Ok b' -> In x l -> exists b1 b2, f b1 x = Ok b2.
Proof.
  revert b. induction l as [|y l IH]; simpl; intros b Hrun Hin;
    [destruct Hin|].
  inv_bind Hrun. destruct Hin as [-> | Hin]; [eauto|].
  apply (IH a Hrun Hin).
Qed.

(** X22: [sample_features] never returns when the class of some instance
    value of the map has an empty cluster array: drawing an index below zero
    rows is a value error (an index error of an earlier instance may come
    first). *)
Theorem sample_features_empty_clusters (draw : nat -> nat)
    (dict : gmap Z (Array2 F)) (j : Z) (feat : Array2 F) :
  In j (values label_map) ->
  dict !! class_of j = Some feat -> nrows feat = 0 ->
  exists e,
    sample_features F half uninit draw opt dict label_map = Raise e
    /\ (e = ValueError \/ e = IndexError).
Proof.
  intros Hj Hentry Hrows. unfold sample_features.
  destruct (foldM _ _ _) as [[fm calls]|e] eqn:Hloop; simpl.
  - exfalso.
    destruct (foldM_Ok_step _ _ _ _ j Hloop) as ([t c] & st2 & Hstep).
    { apply np_unique_In. exact Hj. }
    unfold sample_body in Hstep. rewrite Hentry, Hrows in Hstep.
    discriminate.
  - exists e. split; [reflexivity|].
    apply foldM_Raise in Hloop as ([t c] & i & _ & Hstep).
    unfold sample_body in Hstep.
    destruct (dict !! class_of i) as [fi|]; [|discriminate].
    destruct (nrows fi =? 0); [left; congruence|].
    destruct (write_feature F opt fi _ _ t) as [t1|e1] eqn:Hw;
      simpl in Hstep; [discriminate|]. injection Hstep as ->.
    right. apply write_feature_Raise in Hw. exact Hw.
Qed.
End BroadcastCells.

Lemma broadcast_features_writes_entry_witness :
  exists v,
    arr_get ex_entry3 0 0 = Ok v
    /\ cell (ex_out (broadcast_features Z (fun x => x) ex_storage
                       (fun _ _ => 0%Z) ex_opt None ex_dict3 ex_map3
                       false false)) 0 0 0 1
       = if (data_type ex_opt =? 16)%Z then v else v.
Proof.
  apply (broadcast_features_writes_entry Z (fun x => x) ex_storage ex_opt
           ex_map3 eq_refl (fun _ _ => 0%Z) None ex_dict3 false false
           _ 3%Z ex_entry3); try reflexivity; simpl; lia.
Defined.

Lemma broadcast_features_writes_average_witness :
  exists row v,
    arr_row ex_avg (class_of 3) = Ok row
    /\ arr_get row 0 0 = Ok v
    /\ cell (ex_out (broadcast_features Z (fun x => x) ex_storage
                       (fun _ _ => 0%Z) ex_opt (Some ex_avg) ∅ ex_map3
                       false true)) 0 0 0 1
       = if (data_type ex_opt =? 16)%Z then v else v.
Proof.
  apply (broadcast_features_writes_average Z (fun x => x) ex_storage ex_opt
           ex_map3 eq_refl (fun _ _ => 0%Z) ex_avg ∅ false
           _ 3%Z); try reflexivity; simpl; lia.
Defined.

Lemma sample_features_writes_cluster_witness :
  exists r,
    r < nrows ex_clusters3
    /\ forall n h w k,
         n < dimN ex_map3 -> h < dimH ex_map3 -> w < dimW ex_map3 ->
         cell ex_map3 n 0 h w = 3%Z -> k < feat_num ex_opt ->
         exists v,
           arr_get ex_clusters3 r k = Ok v
           /\ cell (ex_out (sample_features Z (fun x => x) ex_storage
                              (fun _ => 5) ex_opt ex_cluster_dict3 ex_map3))
                   n k h w
              = if (data_type ex_opt =? 16)%Z then v else v.
Proof.
  apply (sample_features_writes_cluster Z (fun x => x) ex_storage ex_opt
           ex_map3 eq_refl (fun _ => 5) ex_cluster_dict3 _ 3%Z ex_clusters3);
    try reflexivity.
  vm_compute. auto.
Defined.

Lemma broadcast_features_returns_witness :
  (exists fm,
     broadcast_features Z (fun x => x) ex_storage (fun _ _ => 0%Z) ex_opt
                        None ex_dict3 ex_map3 false false = Ok fm
     /\ dimN fm = dimN ex_map3 /\ dimC fm = feat_num ex_opt
     /\ dimH fm = dimH ex_map3 /\ dimW fm = dimW ex_map3)
  /\ forall dict' e,
       broadcast_features Z (fun x => x) ex_storage (fun _ _ => 0%Z) ex_opt
                          None dict' ex_map3 false false = Raise e ->
       e = IndexError.
Proof.
  apply (broadcast_features_returns Z (fun x => x) ex_storage ex_opt ex_map3
           eq_refl (fun _ _ => 0%Z) None ex_dict3).
  intros j entry k Hj Hentry Hk.
  assert (j = 3%Z) as ->.
  { vm_compute in Hj. destruct Hj as [<-|[<-|[]]]; reflexivity. }
  injection Hentry as <-. assert (k = 0) as -> by (simpl in Hk; lia).
  exists 9%Z. reflexivity.
Defined.

Lemma sample_features_empty_clusters_witness :
  exists e,
    sample_features Z (fun x => x) ex_storage (fun _ => 5) ex_opt
                    (<[3%Z := mkArray2 1 []]> ∅) ex_map3 = Raise e
    /\ (e = ValueError \/ e = IndexError).
Proof.
  apply (sample_features_empty_clusters Z (fun x => x) ex_storage ex_opt
           ex_map3 (fun _ => 5) (<[3%Z := mkArray2 1 []]> ∅) 3%Z
           (mkArray2 1 [])); try reflexivity.
  vm_compute. auto.
Defined.

(** ** More on the feature encoding *)

Lemma mapR_total {A B : Type} (f : A -> Result B) (g : A -> B) (l : list A) :
  (forall x, In x l -> f x = Ok (g x)) -> mapR f l = Ok (map g l).
Proof.
  induction l as [|a l IH]; simpl; intros Hf; [reflexivity|].
  rewrite (Hf a (or_introl eq_refl)). simpl.
  rewrite IH by (intros x Hx; apply Hf; right; exact Hx). reflexivity.
Qed.

Section EncodeMore.
Variable F : Type.
Variable netE_forward : Tensor F -> Tensor Z -> Tensor F.
Variable fdiv : nat -> nat -> F.
Variable opt : Opt.
Variable inst : Tensor Z.
Variable feat_map : Tensor F.
Hypothesis one_channel : dimC inst = 1.
Hypothesis plane : same_plane feat_map inst.
Hypothesis channels : feat_num opt <= dimC feat_map.

(** The pixel that represents instance [i]: the one in the middle of its
    pixels in index order. *)
Lemma median_pixel (i : Z) :
  In i (values inst) ->
  exists n h w,
    nth_error (nonzero (eq_scalar inst i))
              (length (nonzero (eq_scalar inst i)) / 2) = Some (n, 0, h, w)
    /\ n < dimN inst /\ h < dimH inst /\ w < dimW inst
    /\ cell inst n 0 h w = i.
Proof.
  intros Hi. apply in_values in Hi as (n0 & c0 & h0 & w0 & Hb0 & Hv0).
  assert (Hin0 : In (n0, c0, h0, w0) (nonzero (eq_scalar inst i))).
  { apply in_nonzero_eq. auto. }
  destruct (nth_error (nonzero (eq_scalar inst i))
              (length (nonzero (eq_scalar inst i)) / 2))
    as [[[[n c] h] w]|] eqn:Hnth.
  - assert (Hin := nth_error_In _ _ Hnth).
    apply in_nonzero_eq in Hin as (Hb & Hv).
    assert (c = 0) as -> by lia. exists n, h, w. repeat split; lia || auto.
  - exfalso. apply nth_error_None in Hnth.
    destruct (nonzero (eq_scalar inst i)) as [|x l]; [destruct Hin0|].
    simpl length in Hnth.
    assert (S (length l) / 2 < S (length l))
      by (apply Nat.div_lt; lia). lia.
Qed.

Lemma instance_row_at_median (i : Z) :
  In i (values inst) ->
  exists n h w,
    nth_error (nonzero (eq_scalar inst i))
              (length (nonzero (eq_scalar inst i)) / 2) = Some (n, 0, h, w)
    /\ cell inst n 0 h w = i
    /\ instance_row F fdiv opt feat_map inst i
       = if dimH inst * dimW inst / 32 =? 0 then Raise ZeroDivisionError
         else Ok (map (fun k => cell feat_map n k h w) (seq 0 (feat_num opt))
                  ++ [fdiv (length (nonzero (eq_scalar inst i)))
                           (dimH inst * dimW inst / 32)]).
Proof.
  intros Hi. destruct (median_pixel i Hi) as (n & h & w & Hnth & Hn & Hh & Hw & Hv).
  exists n, h, w. split; [exact Hnth|]. split; [exact Hv|].
  unfold instance_row. rewrite Hnth. simpl.
  rewrite (mapR_total _ (fun k => cell feat_map n k h w)).
  - simpl. reflexivity.
  - intros k Hk. apply in_seq in Hk. unfold tget, in_bounds. simpl.
    destruct plane as (PN & PH & PW).
    assert (Hb : (n <? dimN feat_map) && (k <? dimC feat_map)
                 && (h <? dimH feat_map) && (w <? dimW feat_map) = true).
    { rewrite !andb_true_iff, !Nat.ltb_lt. lia. }
    rewrite Hb. reflexivity.
Qed.

(** X10: the row filed for an instance value holds, in its first feat_num
    entries, the features of the encoder output at a pixel of that very
    instance, the one in the middle of the instance's pixels in index order,
    and in its last entry the pixel count of the instance divided by
    h*w // 32; computing the row fails with a division by zero exactly when
    the map has fewer than 32 pixels per plane. *)
Theorem instance_row_median (i : Z) :
  In i (values inst) ->
  exists n h w,
    nth_error (nonzero (eq_scalar inst i))
              (length (nonzero (eq_scalar inst i)) / 2) = Some (n, 0, h, w)
    /\ cell inst n 0 h w = i
    /\ instance_row F fdiv opt feat_map inst i
       = if dimH inst * dimW inst / 32 =? 0 then Raise ZeroDivisionError
         else Ok (map (fun k => cell feat_map n k h w) (seq 0 (feat_num opt))
                  ++ [fdiv (length (nonzero (eq_scalar inst i)))
                           (dimH inst * dimW inst / 32)]).
Proof. apply instance_row_at_median. Qed.

Lemma instance_row_cases (i : Z) :
  In i (values inst) ->
  (dimH inst * dimW inst < 32
   /\ instance_row F fdiv opt feat_map inst i = Raise ZeroDivisionError)
  \/ (32 <= dimH inst * dimW inst
      /\ exists val, instance_row F fdiv opt feat_map inst i = Ok val).
Proof.
  intros Hi. destruct (instance_row_at_median i Hi) as (n & h & w & _ & _ & Hrow).
  rewrite Hrow. destruct (Nat.eqb_spec (dimH inst * dimW inst / 32) 0) as [Hz|Hz].
  - left. split; [apply Nat.div_small_iff in Hz; lia | reflexivity].
  - right. split; [|eauto].
    destruct (Nat.lt_ge_cases (dimH inst * dimW inst) 32) as [Hlt|]; [|lia].
    apply Nat.div_small in Hlt. contradiction.
Qed.

Lemma empty_features_keys_ok : keys_ok opt (empty_features F opt).
Proof.
  intros k. rewrite empty_features_lookup.
  destruct (Z.leb_spec 0 k), (Z.ltb_spec k (Z.of_nat (label_nc opt)));
    simpl; lia.
Qed.

Lemma encode_body_cases (feature : gmap Z (Array2 F)) (i : Z) :
  32 <= dimH inst * dimW inst -> In i (values inst) -> keys_ok opt feature ->
  ((0 <= class_of i < Z.of_nat (label_nc opt))%Z
   /\ exists feature',
        encode_body F fdiv opt feat_map inst feature i = Ok feature'
        /\ keys_ok opt feature')
  \/ (~ (0 <= class_of i < Z.of_nat (label_nc opt))%Z
      /\ encode_body F fdiv opt feat_map inst feature i = Raise KeyError).
Proof.
  intros Hbig Hi Hok. unfold encode_body.
  destruct (instance_row_cases i Hi) as [[Hlt _] | [_ (val & ->)]]; [lia|].
  simpl. specialize (Hok (class_of i)) as Hk.
  destruct (feature !! class_of i) as [a|] eqn:Hkey.
  - left. destruct Hk as (Hc & Hr). split; [exact Hr|].
    unfold np_append. simpl. rewrite Hc, Nat.eqb_refl. simpl.
    eexists. split; [reflexivity|]. intros k.
    destruct (Z.eq_dec (class_of i) k) as [<-|Hne].
    + rewrite lookup_insert_eq. simpl. auto.
    + rewrite lookup_insert_ne by exact Hne. apply Hok.
  - right. split; [exact Hk | reflexivity].
Qed.

(** X11: on a non-empty one-channel instance map with fewer than 32 pixels
    per plane, [encode_features] fails with a division by zero: h*w // 32 is
    zero. *)
Theorem encode_features_small_map (image : Tensor F) :
  feat_map = netE_forward image inst ->
  0 < dimN inst -> 0 < dimH inst -> 0 < dimW inst ->
  dimH inst * dimW inst < 32 ->
  encode_features F netE_forward fdiv opt image inst
  = Raise ZeroDivisionError.
Proof.
  intros Hfm HN HH HW Hsmall. unfold encode_features. rewrite <- Hfm.
  assert (Hne : exists i l, np_unique (values inst) = i :: l).
  { destruct (np_unique (values inst)) as [|i l] eqn:Hu; [|eauto].
    exfalso. assert (Hin : In (cell inst 0 0 0 0) (np_unique (values inst))).
    { apply np_unique_In, in_values. exists 0, 0, 0, 0.
      split; [lia | reflexivity]. }
    rewrite Hu in Hin. destruct Hin. }
  destruct Hne as (i & l & Hu). rewrite Hu. simpl.
  assert (Hi : In i (values inst)).
  { apply (proj1 (np_unique_In i (values inst))). rewrite Hu. left.
    reflexivity. }
  unfold encode_body.
  destruct (instance_row_cases i Hi) as [[_ ->] | [Hbig _]]; [|lia].
  reflexivity.
Qed.

Lemma encode_loop_cases (l : list Z) :
  forall feature : gmap Z (Array2 F),
    32 <= dimH inst * dimW inst -> keys_ok opt feature ->
    (forall i, In i l -> In i (values inst)) ->
    ((forall i, In i l -> (0 <= class_of i < Z.of_nat (label_nc opt))%Z)
     /\ exists feature',
          foldM (encode_body F fdiv opt feat_map inst) feature l
          = Ok feature')
    \/ ((exists i, In i l
                   /\ ~ (0 <= class_of i < Z.of_nat (label_nc opt))%Z)
        /\ foldM (encode_body F fdiv opt feat_map inst) feature l
           = Raise KeyError).
Proof.
  induction l as [|i l IH]; intros feature Hbig Hok Hsub.
  - left. split; [intros i [] | exists feature; reflexivity].
  - simpl.
    destruct (encode_body_cases feature i Hbig (Hsub i (or_introl eq_refl))
                Hok) as [(Hin & d' & -> & Hok') | (Hout & ->)].
    + simpl.
      destruct (IH d' Hbig Hok' (fun j Hj => Hsub j (or_intror Hj)))
        as [(Hall & Hrun) | ((j & Hj & Hout) & Hrun)].
      * left. split; [|exact Hrun]. intros j [<- | Hj]; auto.
      * right. split; [|exact Hrun]. exists j. auto.
    + right. split; [|reflexivity]. exists i. split; [left|]; auto.
Qed.

(** X12: on a one-channel instance map of at least 32 pixels per plane,
    [encode_features] returns when the class of every instance value lies in
    0 .. label_nc-1, and fails with a key error when the class of some
    instance value does not. *)
Theorem encode_features_returns (image : Tensor F) :
  feat_map = netE_forward image inst ->
  32 <= dimH inst * dimW inst ->
  ((forall i, In i (values inst) ->
      (0 <= class_of i < Z.of_nat (label_nc opt))%Z) ->
   exists feature,
     encode_features F netE_forward fdiv opt image inst = Ok feature)
  /\ ((exists i, In i (values inst)
                 /\ ~ (0 <= class_of i < Z.of_nat (label_nc opt))%Z) ->
      encode_features F netE_forward fdiv opt image inst = Raise KeyError).
Proof.
  intros Hfm Hbig. unfold encode_features. rewrite <- Hfm.
  destruct (encode_loop_cases (np_unique (values inst))
              (empty_features F opt) Hbig empty_features_keys_ok
              (fun i => proj1 (np_unique_In i (values inst))))
    as [(Hall & Hrun) | ((j & Hj & Hout) & Hrun)].
  - split; [intros _; exact Hrun|]. intros (i & Hi & Hout). exfalso.
    apply Hout, Hall, np_unique_In. exact Hi.
  - split; [|intros _; exact Hrun]. intros Hall. exfalso.
    apply Hout, Hall. apply (proj1 (np_unique_In j (values inst))).
    exact Hj.
Qed.
End EncodeMore.

Lemma instance_row_median_witness :
  exists n h w,
    nth_error (nonzero (eq_scalar ex_inst32 5))
              (length (nonzero (eq_scalar ex_inst32 5)) / 2)
    = Some (n, 0, h, w)
    /\ cell ex_inst32 n 0 h w = 5%Z
    /\ instance_row Z ex_fdiv ex_opt ex_image ex_inst32 5
       = if dimH ex_inst32 * dimW ex_inst32 / 32 =? 0
         then Raise ZeroDivisionError
         else Ok (map (fun k => cell ex_image n k h w)
                      (seq 0 (feat_num ex_opt))
                  ++ [ex_fdiv (length (nonzero (eq_scalar ex_inst32 5)))
                              (dimH ex_inst32 * dimW ex_inst32 / 32)]).
Proof.
  apply (instance_row_median Z ex_fdiv ex_opt ex_inst32 ex_image).
  - reflexivity.
  - repeat split.
  - simpl. lia.
  - apply in_values. exists 0, 0, 0, 0. simpl. split; [lia | reflexivity].
Defined.

Lemma encode_features_small_map_witness :
  encode_features Z ex_netE ex_fdiv ex_opt ex_ref_feats ex_map3
  = Raise ZeroDivisionError.
Proof.
  apply (encode_features_small_map Z ex_netE ex_fdiv ex_opt ex_map3
           ex_ref_feats); try reflexivity; simpl; try lia.
  repeat split.
Defined.

Lemma encode_features_returns_witness :
  (exists feature,
     encode_features Z ex_netE ex_fdiv ex_opt ex_image ex_inst32 = Ok feature)
  /\ encode_features Z ex_netE ex_fdiv (mkOpt 5 1 true 32) ex_image ex_inst32
     = Raise KeyError.
Proof.
  split.
  - apply (encode_features_returns Z ex_netE ex_fdiv ex_opt ex_inst32
             ex_image); try reflexivity; try (simpl; lia).
    + repeat split.
    + intros i Hi. apply in_values in Hi as (n & c & h & w & _ & Hv).
      simpl in Hv. subst i. unfold class_of. simpl. lia.
  - apply (encode_features_returns Z ex_netE ex_fdiv (mkOpt 5 1 true 32)
             ex_inst32 ex_image); try reflexivity; try (simpl; lia).
    + repeat split.
    + exists 5%Z. split.
      * apply in_values. exists 0, 0, 0, 0. simpl.
        split; [lia | reflexivity].
      * unfold class_of. simpl. lia.
Defined.

(** ** [simple_encode_features] *)

Section SimpleEncodeProofs.
Variable F : Type.
Variable netE_forward : Tensor F -> Tensor Z -> Tensor F.
Variable inst : Tensor Z.
Variable feat_map : Tensor F.
Hypothesis plane : same_plane feat_map inst.

Lemma simple_encode_body_Ok (feature : gmap Z (Array2 F)) (i : Z) :
  In i (values inst) ->
  simple_encode_body F feat_map inst feature i
  = Ok (<[i := first_pixel_entry feat_map inst i]> feature).
Proof.
  intros Hi. apply in_values in Hi as (n0 & c0 & h0 & w0 & Hb0 & Hv0).
  assert (Hin0 : In (n0, c0, h0, w0) (nonzero (eq_scalar inst i)))
    by (apply in_nonzero_eq; auto).
  unfold simple_encode_body, first_pixel_entry.
  destruct (nonzero (eq_scalar inst i)) as [|[[[n c] h] w] l] eqn:Hnz;
    [destruct Hin0|].
  assert (Hhd : In (n, c, h, w) (nonzero (eq_scalar inst i)))
    by (rewrite Hnz; left; reflexivity).
  apply in_nonzero_eq in Hhd as (Hb & _).
  destruct plane as (PN & PH & PW).
  simpl. unfold pixel_vector.
  assert (Hbd : (n <? dimN feat_map) && (h <? dimH feat_map)
                && (w <? dimW feat_map) = true).
  { rewrite !andb_true_iff, !Nat.ltb_lt. lia. }
  rewrite Hbd. simpl. rewrite length_map, length_seq. reflexivity.
Qed.

Lemma simple_encode_loop (l : list Z) :
  forall feature : gmap Z (Array2 F),
    (forall i, In i l -> In i (values inst)) ->
    exists feature',
      foldM (simple_encode_body F feat_map inst) feature l = Ok feature'
      /\ forall i,
           feature' !! i
           = if in_dec Z.eq_dec i l
             then Some (first_pixel_entry feat_map inst i)
             else feature !! i.
Proof.
  induction l as [|j l IH]; intros feature Hsub.
  - exists feature. split; [reflexivity|]. intros i. reflexivity.
  - cbn [foldM]. rewrite simple_encode_body_Ok by (apply Hsub; left; auto).
    cbn [mbind Result_bind].
    destruct (IH (<[j := first_pixel_entry feat_map inst j]> feature))
      as (feature' & Hrun & Hlook).
    { intros i Hi. apply Hsub. right. exact Hi. }
    exists feature'. split; [exact Hrun|]. intros i. rewrite Hlook.
    destruct (in_dec Z.eq_dec i l) as [Hl|Hl];
      destruct (in_dec Z.eq_dec i (j :: l)) as [Hjl|Hjl];
      try reflexivity.
    + exfalso. apply Hjl. right. exact Hl.
    + destruct Hjl as [->|Hl']; [|contradiction]. apply lookup_insert_eq.
    + apply lookup_insert_ne. intros ->. apply Hjl. left. reflexivity.
Qed.

(** X13: when the encoder output has the batch and spatial sizes of the
    instance map, [simple_encode_features] returns a dictionary whose keys
    are exactly the instance values of the map themselves (a composite value
    such as 5001 is a key, not its class 5), and the entry of a value is the
    one-row array of the channels of the encoder output at the first pixel,
    in index order, of that instance. *)
Theorem simple_encode_features_keys (image : Tensor F) :
  feat_map = netE_forward image inst ->
  exists feature,
    simple_encode_features F netE_forward image inst = Ok feature
    /\ (forall i, is_Some (feature !! i) <-> In i (values inst))
    /\ forall i, In i (values inst) ->
         feature !! i = Some (first_pixel_entry feat_map inst i)
         /\ exists n c h w l,
              nonzero (eq_scalar inst i) = (n, c, h, w) :: l
              /\ cell inst n c h w = i
              /\ first_pixel_entry feat_map inst i
                 = mkArray2 (dimC feat_map)
                     [map (fun k => cell feat_map n k h w)
                          (seq 0 (dimC feat_map))].
Proof.
  intros Hfm. unfold simple_encode_features. rewrite <- Hfm.
  destruct (simple_encode_loop (np_unique (values inst)) ∅)
    as (feature & Hrun & Hlook).
  { intros i. apply np_unique_In. }
  exists feature. split; [exact Hrun|]. split.
  - intros i. rewrite Hlook.
    destruct (in_dec Z.eq_dec i (np_unique (values inst))) as [Hi|Hi].
    + split; [intros _; apply (proj1 (np_unique_In _ _) Hi) | eauto].
    + rewrite lookup_empty. split.
      * intros [x Hx]. discriminate.
      * intros Hv. exfalso. apply Hi, np_unique_In. exact Hv.
  - intros i Hi. split.
    + rewrite Hlook.
      destruct (in_dec Z.eq_dec i (np_unique (values inst))) as [|Hn];
        [reflexivity|]. exfalso. apply Hn, np_unique_In. exact Hi.
    + apply in_values in Hi as (n0 & c0 & h0 & w0 & Hb0 & Hv0).
      assert (Hin0 : In (n0, c0, h0, w0) (nonzero (eq_scalar inst i)))
        by (apply in_nonzero_eq; auto).
      unfold first_pixel_entry.
      destruct (nonzero (eq_scalar inst i)) as [|[[[n c] h] w] l] eqn:Hnz;
        [destruct Hin0|].
      exists n, c, h, w, l. split; [reflexivity|]. split; [|reflexivity].
      assert (Hhd : In (n, c, h, w) (nonzero (eq_scalar inst i)))
        by (rewrite Hnz; left; reflexivity).
      apply in_nonzero_eq in Hhd as (_ & Hv). exact Hv.
Qed.
End SimpleEncodeProofs.

Lemma simple_encode_features_keys_witness :
  exists feature,
    simple_encode_features Z ex_netE ex_ref_feats ex_inst = Ok feature
    /\ (forall i, is_Some (feature !! i) <-> In i (values ex_inst))
    /\ forall i, In i (values ex_inst) ->
         feature !! i = Some (first_pixel_entry ex_ref_feats ex_inst i)
         /\ exists n c h w l,
              nonzero (eq_scalar ex_inst i) = (n, c, h, w) :: l
              /\ cell ex_inst n c h w = i
              /\ first_pixel_entry ex_ref_feats ex_inst i
                 = mkArray2 (dimC ex_ref_feats)
                     [map (fun k => cell ex_ref_feats n k h w)
                          (seq 0 (dimC ex_ref_feats))].
Proof.
  apply (simple_encode_features_keys Z ex_netE ex_inst ex_ref_feats).
  - repeat split.
  - reflexivity.
Defined.

(** ** More on the swap *)

Section SwapMore.
Variable F : Type.
Variables (cf rf cl rl : nat) (σ : gmap nat (obj F)).
Variables (clm rlm : Tensor Z) (cfm rfm : Tensor F).
Hypothesis Hcl : σ !! cl = Some (LabelMap clm).
Hypothesis Hrl : σ !! rl = Some (LabelMap rlm).
Hypothesis Hcf : σ !! cf = Some (FeatMap cfm).
Hypothesis Hrf : σ !! rf = Some (FeatMap rfm).

Lemma nonzero_first_sample_nil (t : Tensor Z) (i : Z) :
  (forall c h w, c < dimC t -> h < dimH t -> w < dimW t ->
                 cell t 0 c h w <> i) ->
  nonzero (eq_scalar (first_sample t) i) = [].
Proof.
  intros Hno.
  destruct (nonzero (eq_scalar (first_sample t) i))
    as [|[[[n c] h] w] l] eqn:Hnz; [reflexivity|].
  exfalso.
  assert (Hin : In (n, c, h, w) (nonzero (eq_scalar (first_sample t) i)))
    by (rewrite Hnz; left; reflexivity).
  apply in_nonzero_eq in Hin as (Hb & Hv).
  unfold first_sample in Hb, Hv. cbn [dimN dimC dimH dimW cell] in Hb, Hv.
  assert (n = 0) as -> by lia. apply (Hno c h w); lia || assumption.
Qed.

(** X14: the assertions look at the whole batch, the indexing at the first
    sample only; when the reference map holds the resolved class, but not in
    its first sample, both assertions pass and the call fails with an index
    error, leaving the heap as it was. *)
Theorem swap_features_class_in_later_sample (swapID e : Z) :
  In swapID (values clm) ->
  resolved_class swapID rlm = Some e ->
  In e (values rlm) ->
  (forall c h w, c < dimC rlm -> h < dimH rlm -> w < dimW rlm ->
                 cell rlm 0 c h w <> e) ->
  swap_features F swapID cf rf cl rl σ = (σ, Raise IndexError).
Proof.
  intros Hin Hres He Hno.
  unfold swap_features, swapped_map, read_label. rewrite Hcl, Hrl. simpl.
  apply py_in_values in Hin. rewrite Hin. simpl.
  unfold resolved_class in Hres. rewrite Hres.
  apply py_in_values in He. rewrite He. simpl.
  rewrite (nonzero_first_sample_nil rlm e Hno). reflexivity.
Qed.

(** X15: when the condition map holds the swap class, but not in its first
    sample, a call on well-sized maps returns and writes nothing: the heap is
    the one before the call. *)
Theorem swap_features_nothing_to_write (swapID e : Z) (s0 sc s2 s3 : nat) :
  In swapID (values clm) ->
  (forall c h w, c < dimC clm -> h < dimH clm -> w < dimW clm ->
                 cell clm 0 c h w <> swapID) ->
  resolved_class swapID rlm = Some e ->
  nth_error (nonzero (eq_scalar (first_sample rlm) e)) 0
  = Some (s0, sc, s2, s3) ->
  same_plane rfm rlm -> dimC rfm = dimC cfm ->
  swap_features F swapID cf rf cl rl σ = (σ, Ok tt).
Proof.
  intros Hin Hno Hres Hs (HrN & HrH & HrW) HC.
  assert (Hs' := Hs). apply nth_error_In, in_nonzero_eq in Hs'.
  unfold first_sample in Hs'. cbn [dimN dimC dimH dimW cell] in Hs'.
  destruct Hs' as ((Hs0 & Hsc & Hs2 & Hs3) & Hse).
  apply (swap_features_Ok F cf rf cl rl σ). exists cfm. split.
  - apply (swapped_map_spec F cf rf cl rl σ clm rlm cfm rfm Hcl Hrl Hcf Hrf).
    exists e, (s0, sc, s2, s3),
      (map (fun c => cell rfm s0 c s2 s3) (seq 0 (dimC rfm))).
    repeat split; try assumption.
    + apply in_values. exists s0, sc, s2, s3. split; [lia | exact Hse].
    + apply pixel_vector_total; lia.
    + rewrite (nonzero_first_sample_nil clm swapID Hno).
      unfold put_pixels. rewrite length_map, length_seq, HC, Nat.eqb_refl.
      reflexivity.
  - symmetry. apply insert_id. exact Hcf.
Qed.


(** X23: the swap reads the reference feature map at one pixel only, the
    first reference pixel of the resolved class: replacing the reference
    feature map by one of the same sizes that agrees with it at that pixel
    gives the same outcome and the same condition feature map. *)
Theorem swap_features_reads_one_pixel (swapID e : Z) (rfm' : Tensor F)
    (s0 sc s2 s3 : nat) :
  cf <> rf ->
  dimN rfm' = dimN rfm -> dimC rfm' = dimC rfm ->
  dimH rfm' = dimH rfm -> dimW rfm' = dimW rfm ->
  resolved_class swapID rlm = Some e ->
  nth_error (nonzero (eq_scalar (first_sample rlm) e)) 0
  = Some (s0, sc, s2, s3) ->
  (forall c, c < dimC rfm -> cell rfm' s0 c s2 s3 = cell rfm s0 c s2 s3) ->
  swapped_map F swapID cf rf cl rl (<[rf := FeatMap rfm']> σ)
  = swapped_map F swapID cf rf cl rl σ
  /\ snd (swap_features F swapID cf rf cl rl (<[rf := FeatMap rfm']> σ))
     = snd (swap_features F swapID cf rf cl rl σ).
Proof.
  intros Hne HN HC HH HW Hres Hs Hagree.
  assert (Hmap : swapped_map F swapID cf rf cl rl (<[rf := FeatMap rfm']> σ)
                 = swapped_map F swapID cf rf cl rl σ).
  { unfold swapped_map, read_label, read_feat.
    assert (Hclr : cl <> rf) by (intros ->; congruence).
    assert (Hrlr : rl <> rf) by (intros ->; congruence).
    assert (L1 : <[rf := FeatMap rfm']> σ !! cl = Some (LabelMap clm))
      by (rewrite lookup_insert_ne by congruence; exact Hcl).
    assert (L2 : <[rf := FeatMap rfm']> σ !! rl = Some (LabelMap rlm))
      by (rewrite lookup_insert_ne by congruence; exact Hrl).
    assert (L3 : <[rf := FeatMap rfm']> σ !! cf = Some (FeatMap cfm))
      by (rewrite lookup_insert_ne by congruence; exact Hcf).
    assert (L4 : <[rf := FeatMap rfm']> σ !! rf = Some (FeatMap rfm'))
      by apply lookup_insert_eq.
    rewrite L1, L2, L3, L4, Hcl, Hrl, Hcf, Hrf. simpl.
    destruct (py_in swapID (np_unique (values clm))); simpl; [|reflexivity].
    unfold resolved_class in Hres. rewrite Hres.
    destruct (py_in e (np_unique (values rlm))); simpl; [|reflexivity].
    destruct (nonzero (eq_scalar (first_sample rlm) e)) as [|s l];
      [discriminate|]. simpl in Hs. injection Hs as ->.
    cbn [mbind Result_bind].
    assert (Hvec : pixel_vector F rfm' (s0, sc, s2, s3)
                   = pixel_vector F rfm (s0, sc, s2, s3)).
    { unfold pixel_vector. rewrite HN, HC, HH, HW.
      destruct (_ && _); [|reflexivity]. f_equal.
      apply map_ext_in. intros c Hc. apply in_seq in Hc.
      apply Hagree. lia. }
    rewrite Hvec. reflexivity. }
  split; [exact Hmap|]. unfold swap_features. rewrite Hmap.
  destruct (swapped_map F swapID cf rf cl rl σ); reflexivity.
Qed.
End SwapMore.

Lemma swap_features_class_in_later_sample_witness :
  swap_features Z 5 0 1 2 6 ex_heap2 = (ex_heap2, Raise IndexError).
Proof.
  apply (swap_features_class_in_later_sample Z 0 1 2 6 ex_heap2
           ex_labels ex_batch_labels eq_refl eq_refl 5%Z 5%Z).
  - vm_compute. auto.
  - reflexivity.
  - vm_compute. auto 10.
  - intros c h w Hc Hh Hw. simpl. discriminate.
Defined.

Lemma swap_features_nothing_to_write_witness :
  swap_features Z 5 0 1 6 2 ex_heap2 = (ex_heap2, Ok tt).
Proof.
  apply (swap_features_nothing_to_write Z 0 1 6 2 ex_heap2
           ex_batch_labels ex_labels ex_cond_feats2 ex_ref_feats
           eq_refl eq_refl eq_refl eq_refl 5%Z 5%Z 0 0 0 0).
  - vm_compute. auto 10.
  - intros c h w Hc Hh Hw. simpl. discriminate.
  - reflexivity.
  - reflexivity.
  - repeat split.
  - reflexivity.
Defined.


Lemma swap_features_reads_one_pixel_witness :
  swapped_map Z 5 0 1 2 3 (<[1 := FeatMap ex_ref_feats']> ex_heap)
  = swapped_map Z 5 0 1 2 3 ex_heap
  /\ snd (swap_features Z 5 0 1 2 3 (<[1 := FeatMap ex_ref_feats']> ex_heap))
     = snd (swap_features Z 5 0 1 2 3 ex_heap).
Proof.
  apply (swap_features_reads_one_pixel Z 0 1 2 3 ex_heap ex_labels ex_labels
           ex_cond_feats ex_ref_feats eq_refl eq_refl eq_refl eq_refl
           5%Z 5%Z ex_ref_feats' 0 0 0 0); try reflexivity.
  discriminate.
Defined.

(** ** Sizes of the tensors handed to the networks *)

Lemma cat1_dims {A : Type} (a b t : Tensor A) :
  cat1 a b = Ok t ->
  dimN t = dimN a /\ dimC t = dimC a + dimC b /\ dimH t = dimH a
  /\ dimW t = dimW a.
Proof.
  unfold cat1. destruct (_ && _); [|discriminate]. intros [= <-]. auto.
Qed.

Lemma scatter_dims (self index t : Tensor Z) :
  scatter_ self index = Ok t ->
  dimN t = dimN self /\ dimC t = dimC self /\ dimH t = dimH self
  /\ dimW t = dimW self.
Proof.
  unfold scatter_.
  apply (foldM_invariant
           (fun u => dimN u = dimN self /\ dimC u = dimC self
                     /\ dimH u = dimH self /\ dimW u = dimW self)).
  - intros x y z _ (HN & HC & HH & HW) Hstep.
    apply scatter_one_dims in Hstep as (HN' & HC' & HH' & HW').
    repeat split; congruence.
  - auto.
Qed.

Lemma encode_input_dims (opt : Opt) (label_map inst t : Tensor Z) :
  encode_input opt label_map (Some inst) = Ok t ->
  dimN t = dimN label_map /\ dimH t = dimH label_map
  /\ dimW t = dimW label_map
  /\ dimC t
     = (if label_nc opt =? 0 then dimC label_map else label_nc opt)
       + (if no_instance opt then 0 else dimC inst).
Proof.
  unfold encode_input. intros Hrun. inv_bind Hrun.
  assert (Ha' : dimN a = dimN label_map /\ dimH a = dimH label_map
                /\ dimW a = dimW label_map
                /\ dimC a = if label_nc opt =? 0 then dimC label_map
                            else label_nc opt).
  { destruct (label_nc opt =? 0).
    - injection Ha as <-. auto.
    - apply scatter_dims in Ha as (HN & HC & HH & HW). simpl in *. auto. }
  destruct Ha' as (HN & HH & HW & HC).
  destruct (no_instance opt); simpl in Hrun.
  - injection Hrun as <-. repeat split; try assumption. lia.
  - apply cat1_dims in Hrun as (HN' & HC' & HH' & HW').
    destruct (get_edges_dims opt inst) as (_ & EC & _ & _).
    repeat split; congruence.
Qed.

Section FeatureMapDims.
Variable F : Type.
Variable opt : Opt.

Lemma write_feature_keeps_dims (feat : Array2 F) (r : nat) (idx : list Idx)
    (t t' : Tensor F) :
  write_feature F opt feat r idx t = Ok t' ->
  dimN t' = dimN t /\ dimC t' = dimC t /\ dimH t' = dimH t
  /\ dimW t' = dimW t.
Proof.
  unfold write_feature.
  apply (foldM_invariant
           (fun u => dimN u = dimN t /\ dimC u = dimC t
                     /\ dimH u = dimH t /\ dimW u = dimW t)).
  - intros x y z _ (HN & HC & HH & HW) Hstep. inv_bind Hstep.
    apply (index_put_Ok F (fun v => v)) in Hstep
      as ((HN' & HC' & HH' & HW') & _).
    repeat split; congruence.
  - auto.
Qed.

Lemma broadcast_features_dims (half : F -> F)
    (uninit : nat -> nat -> nat -> nat -> F) (z_random : nat -> nat -> F)
    (avg : option (Array2 F)) (dict : gmap Z (Array2 F))
    (label_map : Tensor Z) (random from_avg : bool) (fm : Tensor F) :
  broadcast_features F half uninit z_random opt avg dict label_map
                     random from_avg = Ok fm ->
  dimN fm = dimN label_map /\ dimC fm = feat_num opt
  /\ dimH fm = dimH label_map /\ dimW fm = dimW label_map.
Proof.
  unfold broadcast_features. intros Hrun. inv_bind Hrun.
  destruct a as [fm' calls]. injection Hrun as <-.
  assert (Hd : dimN (fst (fm', calls)) = dimN label_map
               /\ dimC (fst (fm', calls)) = feat_num opt
               /\ dimH (fst (fm', calls)) = dimH label_map
               /\ dimW (fst (fm', calls)) = dimW label_map).
  { eapply (foldM_invariant
              (fun st => dimN (fst st) = dimN label_map
                         /\ dimC (fst st) = feat_num opt
                         /\ dimH (fst st) = dimH label_map
                         /\ dimW (fst st) = dimW label_map));
      [|idtac|exact Ha]; [|simpl; auto].
    intros [t c] i [t1 c1] _ Hd Hstep. simpl in *.
    unfold broadcast_body in Hstep.
    destruct (dict !! class_of i).
    - inv_bind Hstep. destruct a0 as [feat calls']. inv_bind Hstep.
      injection Hstep as <- <-.
      apply write_feature_keeps_dims in Ha1. intuition congruence.
    - destruct from_avg.
      + inv_bind Hstep. inv_bind Hstep. inv_bind Hstep.
        injection Hstep as <- <-.
        apply write_feature_keeps_dims in Ha2. intuition congruence.
      + injection Hstep as <- <-. exact Hd. }
  simpl in Hd. unfold finish. destruct (data_type opt =? 16)%Z; exact Hd.
Qed.

Lemma sample_features_dims (half : F -> F)
    (uninit : nat -> nat -> nat -> nat -> F) (draw : nat -> nat)
    (dict : gmap Z (Array2 F)) (inst : Tensor Z) (fm : Tensor F) :
  sample_features F half uninit draw opt dict inst = Ok fm ->
  dimN fm = dimN inst /\ dimC fm = feat_num opt
  /\ dimH fm = dimH inst /\ dimW fm = dimW inst.
Proof.
  unfold sample_features. intros Hrun. inv_bind Hrun.
  destruct a as [fm' calls]. injection Hrun as <-.
  assert (Hd : dimN (fst (fm', calls)) = dimN inst
               /\ dimC (fst (fm', calls)) = feat_num opt
               /\ dimH (fst (fm', calls)) = dimH inst
               /\ dimW (fst (fm', calls)) = dimW inst).
  { eapply (foldM_invariant
              (fun st => dimN (fst st) = dimN inst
                         /\ dimC (fst st) = feat_num opt
                         /\ dimH (fst st) = dimH inst
                         /\ dimW (fst st) = dimW inst));
      [|idtac|exact Ha]; [|simpl; auto].
    intros [t c] i [t1 c1] _ Hd Hstep. simpl in *.
    unfold sample_body in Hstep.
    destruct (dict !! class_of i); [|injection Hstep as <- <-; exact Hd].
    destruct (nrows a =? 0); [discriminate|].
    inv_bind Hstep. injection Hstep as <- <-.
    apply write_feature_keeps_dims in Ha0. intuition congruence. }
  simpl in Hd. unfold finish. destruct (data_type opt =? 16)%Z; exact Hd.
Qed.
End FeatureMapDims.

(** X17: the tensors built for the networks have the channel counts the
    networks were built with in [initialize]: whenever
    [inference_given_feature] or [inference] gets as far as running the
    generator, its input has [netG_input_nc] channels (and the batch and
    spatial sizes of the label map), and the concatenation of the encoded
    label with an image of [output_nc] channels has [netD_input_nc]
    channels. *)
Theorem network_input_channels (F : Type) (half : F -> F)
    (uninit : nat -> nat -> nat -> nat -> F) (z_random : nat -> nat -> F)
    (draw : nat -> nat) (of_label : Z -> F) (o : NetOpt)
    (avg : option (Array2 F)) (label inst : Tensor Z)
    (features : gmap Z (Array2 F)) (random from_avg : bool) :
  (label_nc (base o) = 0 -> dimC label = input_nc o) ->
  (no_instance (base o) = false -> dimC inst = 1) ->
  (forall x,
     inference_given_feature_input F half uninit z_random of_label o avg
       label inst features random from_avg = Ok x ->
     dimC x = netG_input_nc o /\ dimN x = dimN label
     /\ dimH x = dimH label /\ dimW x = dimW label)
  /\ (forall x,
        inference_input F half uninit draw of_label o features label inst
        = Ok x ->
        dimC x = netG_input_nc o /\ dimN x = dimN label
        /\ dimH x = dimH label /\ dimW x = dimW label)
  /\ (forall input_label image x,
        encode_input (base o) label (Some inst) = Ok input_label ->
        dimC image = output_nc o ->
        discriminate_input F (tmap of_label input_label) image = Ok x ->
        dimC x = netD_input_nc o).
Proof.
  intros Hlabel Hinst.
  assert (Henc : forall t, encode_input (base o) label (Some inst) = Ok t ->
            dimN t = dimN label /\ dimH t = dimH label
            /\ dimW t = dimW label
            /\ dimC t = if negb (no_instance (base o))
                        then net_input_nc o + 1 else net_input_nc o).
  { intros t Ht. apply encode_input_dims in Ht as (HN & HH & HW & HC).
    repeat split; try assumption. rewrite HC. unfold net_input_nc.
    destruct (Nat.eqb_spec (label_nc (base o)) 0) as [Hz|Hz]; simpl;
      destruct (no_instance (base o)) eqn:Hno; simpl;
      rewrite ?Hlabel, ?Hinst by auto; lia. }
  split; [|split].
  - intros x Hrun. unfold inference_given_feature_input in Hrun.
    inv_bind Hrun. apply Henc in Ha as (HN & HH & HW & HC).
    unfold netG_input_nc. destruct (use_features o).
    + inv_bind Hrun. apply broadcast_features_dims in Ha
        as (_ & FC & _ & _).
      apply cat1_dims in Hrun as (HN' & HC' & HH' & HW'). simpl in *.
      repeat split; congruence.
    + injection Hrun as <-. simpl. auto.
  - intros x Hrun. unfold inference_input in Hrun.
    inv_bind Hrun. apply Henc in Ha as (HN & HH & HW & HC).
    unfold netG_input_nc. destruct (use_features o).
    + inv_bind Hrun. apply sample_features_dims in Ha as (_ & FC & _ & _).
      apply cat1_dims in Hrun as (HN' & HC' & HH' & HW'). simpl in *.
      repeat split; congruence.
    + injection Hrun as <-. simpl. auto.
  - intros e image x He Himg Hrun. apply Henc in He as (_ & _ & _ & HC).
    apply cat1_dims in Hrun as (_ & HC' & _ & _). simpl in HC'.
    unfold netD_input_nc. rewrite HC', HC, Himg.
    destruct (no_instance (base o)); simpl; lia.
Qed.

Lemma network_input_channels_witness :
  inference_given_feature_input Z (fun x => x) ex_storage (fun _ _ => 0%Z)
    (fun z => z) ex_net_opt None ex_labels ex_inst ∅ false false
  = Ok (ex_out (inference_given_feature_input Z (fun x => x) ex_storage
                  (fun _ _ => 0%Z) (fun z => z) ex_net_opt None ex_labels
                  ex_inst ∅ false false))
  /\ dimC (ex_out (inference_given_feature_input Z (fun x => x) ex_storage
                     (fun _ _ => 0%Z) (fun z => z) ex_net_opt None ex_labels
                     ex_inst ∅ false false))
     = netG_input_nc ex_net_opt
  /\ netG_input_nc ex_net_opt = 8.
Proof.
  split; [vm_compute; reflexivity|]. split; [|reflexivity].
  destruct (network_input_channels Z (fun x => x) ex_storage
              (fun _ _ => 0%Z) (fun _ => 0) (fun z => z) ex_net_opt None
              ex_labels ex_inst ∅ false false) as (Hgiven & _).
  - discriminate.
  - reflexivity.
  - apply Hgiven. vm_compute. reflexivity.
Defined.

(** ** [condition_inference] *)

Section ConditionInference.
Variable F : Type.
Variable netE_forward : Tensor F -> Tensor Z -> Tensor F.
Variable of_label : Z -> F.
Variable o : NetOpt.
Variables (condition_label reference_label : Tensor Z).
Variables (condition_inst reference_inst : Tensor Z).
Variables (condition_img reference_img : Tensor F).
Variables (ec er : Tensor Z).
Hypothesis Her :
  encode_input (base o) reference_label (Some reference_inst) = Ok er.
Hypothesis Hec :
  encode_input (base o) condition_label (Some condition_inst) = Ok ec.

Lemma swap_heap_lookups (cfm rfm : Tensor F) (clm rlm : Tensor Z) :
  swap_heap F cfm rfm clm rlm !! 2 = Some (LabelMap clm)
  /\ swap_heap F cfm rfm clm rlm !! 3 = Some (LabelMap rlm)
  /\ swap_heap F cfm rfm clm rlm !! 0 = Some (FeatMap cfm)
  /\ swap_heap F cfm rfm clm rlm !! 1 = Some (FeatMap rfm).
Proof.
  unfold swap_heap. repeat split.
Qed.

(** X18: when the swap class does not occur in the condition label map,
    [condition_inference] with a condition image stops at the first assertion
    of [swap_features]: it raises an assertion error and the generator is
    not run. *)
Theorem condition_inference_absent_class (swapID : Z) :
  ~ In swapID (values condition_label) ->
  condition_inference_input F netE_forward of_label o condition_label
    reference_label condition_inst reference_inst (Some condition_img)
    reference_img swapID = Raise AssertionError
  /\ forall netG_forward,
       condition_inference F netE_forward netG_forward of_label o
         condition_label reference_label condition_inst reference_inst
         (Some condition_img) reference_img swapID = Raise AssertionError.
Proof.
  intros Hno.
  assert (Hin : condition_inference_input F netE_forward of_label o
                  condition_label reference_label condition_inst
                  reference_inst (Some condition_img) reference_img swapID
                = Raise AssertionError).
  { unfold condition_inference_input. rewrite Her. simpl. rewrite Hec. simpl.
    unfold swap_features, swapped_map, read_label.
    destruct (swap_heap_lookups (netE_forward condition_img condition_label)
                (netE_forward reference_img reference_label)
                condition_label reference_label) as (-> & _).
    simpl.
    destruct (py_in swapID (np_unique (values condition_label))) eqn:Hp;
      [|reflexivity].
    apply py_in_values in Hp. contradiction. }
  split; [exact Hin|]. intros netG_forward.
  unfold condition_inference. rewrite Hin. reflexivity.
Qed.

(** X19: on well-sized inputs [condition_inference] with a condition image
    runs the generator on the encoded condition label followed by the
    condition feature map in which every pixel of the swap class (in the
    first sample) carries the features of the first reference pixel of the
    resolved class; every other pixel keeps the condition features. *)
Theorem condition_inference_generator_input (swapID e : Z)
    (cfm rfm : Tensor F) (s0 sc s2 s3 : nat) :
  cfm = netE_forward condition_img condition_label ->
  rfm = netE_forward reference_img reference_label ->
  same_plane cfm condition_label -> same_plane rfm reference_label ->
  dimC rfm = dimC cfm -> dimC condition_label = 1 ->
  In swapID (values condition_label) ->
  resolved_class swapID reference_label = Some e ->
  nth_error (nonzero (eq_scalar (first_sample reference_label) e)) 0
  = Some (s0, sc, s2, s3) ->
  exists x,
    condition_inference_input F netE_forward of_label o condition_label
      reference_label condition_inst reference_inst (Some condition_img)
      reference_img swapID = Ok x
    /\ dimC x = dimC ec + dimC cfm
    /\ forall n h w,
         n < dimN condition_label -> h < dimH condition_label ->
         w < dimW condition_label ->
         (forall c, c < dimC ec ->
                    cell x n c h w = of_label (cell ec n c h w))
         /\ (forall c, c < dimC cfm ->
               cell x n (dimC ec + c) h w
               = if (n =? 0) && (cell condition_label 0 0 h w =? swapID)%Z
                 then cell rfm s0 c s2 s3
                 else cell cfm n c h w).
Proof.
  intros Hcfm Hrfm Hpc Hpr HC Hone Hin Hres Hs.
  destruct (swap_heap_lookups cfm rfm condition_label reference_label)
    as (Hcl & Hrl & Hcf & Hrf).
  destruct (swap_features_total F 0 1 2 3 _ _ _ _ _ Hcl Hrl Hcf Hrf
              swapID e s0 sc s2 s3 Hpc Hpr HC Hin Hres Hs)
    as (cfm' & Hrun & (Hs0 & _) & _).
  assert (Hrun' := Hrun).
  apply (swap_features_Ok F 0 1 2 3) in Hrun' as (t & Hmap & Heq).
  assert (t = cfm') as ->.
  { assert (Hl : <[0 := FeatMap t]>
                   (swap_heap F cfm rfm condition_label reference_label)
                 !! 0
                 = <[0 := FeatMap cfm']>
                     (swap_heap F cfm rfm condition_label reference_label)
                   !! 0) by (rewrite Heq; reflexivity).
    rewrite !lookup_insert_eq in Hl. congruence. }
  apply (swapped_map_spec F 0 1 2 3 _ _ _ _ _ Hcl Hrl Hcf Hrf) in Hmap
    as (e' & s & vec & _ & Hres' & _ & Hs' & Hvec & Hput).
  assert (e' = e) as -> by congruence.
  assert (s = (s0, sc, s2, s3)) as -> by congruence.
  destruct Hpr as (HrN & HrH & HrW).
  assert (Hsb := Hs). apply nth_error_In, in_nonzero_eq in Hsb.
  unfold first_sample in Hsb. cbn [dimN dimC dimH dimW cell] in Hsb.
  destruct Hsb as ((Hb0 & Hbc & Hb2 & Hb3) & _).
  rewrite pixel_vector_total in Hvec by lia. injection Hvec as <-.
  unfold put_pixels in Hput.
  destruct ((_ =? _) || (_ =? _)); [|discriminate].
  apply put_pixels_fold in Hput as (HN & HC' & HH & HW & Hcell).
  destruct Hpc as (HcN & HcH & HcW).
  destruct (encode_input_dims _ _ _ _ Hec) as (EN & EH & EW & _).
  unfold condition_inference_input. rewrite Her. simpl. rewrite Hec. simpl.
  rewrite <- Hcfm, <- Hrfm, Hrun. unfold read_feat.
  rewrite lookup_insert_eq. simpl.
  unfold cat1. simpl.
  rewrite EN, EH, EW, HN, HH, HW, HcN, HcH, HcW, !Nat.eqb_refl. simpl.
  eexists. split; [reflexivity|]. simpl. split; [congruence|].
  intros n h w Hn Hh Hw. split.
  - intros c Hc. apply Nat.ltb_lt in Hc. rewrite Hc. reflexivity.
  - intros c Hc.
    destruct (Nat.ltb_spec (dimC ec + c) (dimC ec)); [lia|].
    replace (dimC ec + c - dimC ec) with c by lia.
    rewrite Hcell. apply Nat.ltb_lt in Hc. rewrite Hc, andb_true_r.
    rewrite (broadcast_entry_map F (fun k => cell rfm s0 k s2 s3))
      by (apply Nat.ltb_lt in Hc; lia).
    match goal with
    | |- (if ?a then _ else _) = (if ?b then _ else _) =>
        replace a with b; [reflexivity|]
    end.
    apply eq_true_iff_eq. rewrite pixel_hit_nonzero.
    rewrite andb_true_iff, Nat.eqb_eq, Z.eqb_eq.
    unfold first_sample. cbn [dimN dimC dimH dimW cell]. split.
    + intros (-> & Hv). exists 0. split; [lia | exact Hv].
    + intros (c0 & Hb & Hv). assert (n = 0) as -> by lia.
      assert (c0 = 0) as -> by lia. auto.
Qed.
End ConditionInference.

Lemma condition_inference_absent_class_witness :
  condition_inference_input Z ex_netE (fun z => z) ex_net_opt ex_labels
    ex_labels ex_inst ex_inst (Some ex_cond_feats) ex_ref_feats 7
  = Raise AssertionError
  /\ forall netG_forward,
       condition_inference Z ex_netE netG_forward (fun z => z) ex_net_opt
         ex_labels ex_labels ex_inst ex_inst (Some ex_cond_feats)
         ex_ref_feats 7 = Raise AssertionError.
Proof.
  apply (condition_inference_absent_class Z ex_netE (fun z => z) ex_net_opt
           ex_labels ex_labels ex_inst ex_inst ex_cond_feats ex_ref_feats
           (ex_out (encode_input ex_opt_inst ex_labels (Some ex_inst)))
           (ex_out (encode_input ex_opt_inst ex_labels (Some ex_inst)))).
  - vm_compute. reflexivity.
  - vm_compute. reflexivity.
  - vm_compute. intros [H|[H|[]]]; discriminate.
Defined.

Lemma condition_inference_generator_input_witness :
  exists x,
    condition_inference_input Z ex_netE (fun z => z) ex_net_opt ex_labels
      ex_labels ex_inst ex_inst (Some ex_cond_feats) ex_ref_feats 5 = Ok x
    /\ dimC x
       = dimC (ex_out (encode_input ex_opt_inst ex_labels (Some ex_inst)))
         + dimC ex_cond_feats
    /\ forall n h w,
         n < dimN ex_labels -> h < dimH ex_labels -> w < dimW ex_labels ->
         (forall c,
            c < dimC (ex_out (encode_input ex_opt_inst ex_labels
                                (Some ex_inst))) ->
            cell x n c h w
            = cell (ex_out (encode_input ex_opt_inst ex_labels
                              (Some ex_inst))) n c h w)
         /\ (forall c, c < dimC ex_cond_feats ->
               cell x n
                 (dimC (ex_out (encode_input ex_opt_inst ex_labels
                                  (Some ex_inst))) + c) h w
               = if (n =? 0) && (cell ex_labels 0 0 h w =? 5)%Z
                 then cell ex_ref_feats 0 c 0 0
                 else cell ex_cond_feats n c h w).
Proof.
  apply (condition_inference_generator_input Z ex_netE (fun z => z)
           ex_net_opt ex_labels ex_labels ex_inst ex_inst ex_cond_feats
           ex_ref_feats
           (ex_out (encode_input ex_opt_inst ex_labels (Some ex_inst)))
           (ex_out (encode_input ex_opt_inst ex_labels (Some ex_inst)))
           ltac:(vm_compute; reflexivity) ltac:(vm_compute; reflexivity)
           5%Z 5%Z ex_cond_feats ex_ref_feats 0 0 0 0);
    try reflexivity.
  - repeat split.
  - repeat split.
  - vm_compute. auto.
Defined.

(** ** Learning-rate schedule *)

Section LearningRateProofs.
Variable F : Type.
Variable fsub : F -> F -> F.
Variable fdiv_int : F -> Z -> F.
Variable R : Type.

Lemma set_lr_sync (lr : F) (l : list (param_group F R)) (pg : param_group F R) :
  In pg (map (set_lr F R lr) l) -> pg_lr F R pg = lr.
Proof. intros Hin. apply in_map_iff in Hin as (x & <- & _). reflexivity. Qed.

Lemma set_lr_rest (lr : F) (l : list (param_group F R)) :
  map (pg_rest F R) (map (set_lr F R lr) l) = map (pg_rest F R) l.
Proof. rewrite map_map. reflexivity. Qed.

(** X20: linear decay.  With a non-zero [niter_decay], [n] calls of
    [update_learning_rate] in a row all return; the tracked rate has been
    decreased [n] times by the same step [opt.lr / niter_decay], whatever the
    rate was; the parameter groups keep their number and their other
    entries; and after at least one call every group of both optimizers
    carries the tracked rate. *)
Theorem update_learning_rate_linear (opt_lr : F) (niter_decay : Z) (n : nat)
    (s : Schedule F R) :
  niter_decay <> 0%Z ->
  exists s',
    update_learning_rate_n F fsub fdiv_int R opt_lr niter_decay n s = Ok s'
    /\ old_lr F R s'
       = Nat.iter n (fun lr => fsub lr (fdiv_int opt_lr niter_decay))
                  (old_lr F R s)
    /\ map (pg_rest F R) (optimizer_D F R s')
       = map (pg_rest F R) (optimizer_D F R s)
    /\ map (pg_rest F R) (optimizer_G F R s')
       = map (pg_rest F R) (optimizer_G F R s)
    /\ (0 < n -> in_sync F R s').
Proof.
  intros Hnz. revert s. induction n as [|n IH]; intros s.
  - exists s. simpl. repeat split; try reflexivity. lia.
  - simpl. unfold update_learning_rate at 1.
    destruct (Z.eqb_spec niter_decay 0) as [|_]; [contradiction|]. simpl.
    set (lr := fsub (old_lr F R s) (fdiv_int opt_lr niter_decay)).
    set (s1 := mkSchedule F R lr
                 (map (set_lr F R lr) (optimizer_D F R s))
                 (map (set_lr F R lr) (optimizer_G F R s))).
    destruct (IH s1) as (s' & Hrun & Hlr & HD & HG & Hsync).
    exists s'. split; [exact Hrun|]. split.
    + rewrite Hlr. simpl. clear. induction n as [|n IHn]; simpl;
        [reflexivity|]. rewrite IHn. reflexivity.
    + split; [rewrite HD; apply set_lr_rest|].
      split; [rewrite HG; apply set_lr_rest|].
      intros _. destruct n as [|n]; [|apply Hsync; lia].
      simpl in Hrun. injection Hrun as <-.
      intros pg Hin. apply in_app_or in Hin as [Hin|Hin];
        apply set_lr_sync in Hin; exact Hin.
Qed.

(** X21: [set_continue_learning_rate lr] puts [lr] on every parameter group
    of both optimizers, and one [update_learning_rate] after it returns with
    [lr - opt.lr / niter_decay] as the tracked rate and on every parameter
    group, the number of groups unchanged; with [niter_decay] zero the update
    raises a division error instead. *)
Theorem set_continue_then_update (opt_lr lr : F) (niter_decay : Z)
    (s : Schedule F R) :
  niter_decay <> 0%Z ->
  in_sync F R (set_continue_learning_rate F R lr s)
  /\ exists s',
       update_learning_rate F fsub fdiv_int R opt_lr niter_decay
         (set_continue_learning_rate F R lr s) = Ok s'
       /\ old_lr F R s' = fsub lr (fdiv_int opt_lr niter_decay)
       /\ in_sync F R s'
       /\ length (optimizer_D F R s') = length (optimizer_D F R s)
       /\ length (optimizer_G F R s') = length (optimizer_G F R s)
       /\ update_learning_rate F fsub fdiv_int R opt_lr 0
            (set_continue_learning_rate F R lr s)
          = Raise ZeroDivisionError.
Proof.
  intros Hnz. split.
  - intros pg Hin. simpl in Hin. apply in_app_or in Hin as [Hin|Hin];
      apply set_lr_sync in Hin; exact Hin.
  - unfold update_learning_rate.
    destruct (Z.eqb_spec niter_decay 0) as [|_]; [contradiction|].
    eexists. split; [reflexivity|]. simpl. split; [reflexivity|]. split.
    + intros pg Hin. simpl in Hin. apply in_app_or in Hin as [Hin|Hin];
        apply set_lr_sync in Hin; exact Hin.
    + rewrite !length_map. auto.
Qed.
End LearningRateProofs.

Lemma update_learning_rate_linear_witness :
  exists s',
    update_learning_rate_n Z Z.sub Z.div unit 100%Z 10%Z 3
      (mkSchedule Z unit 100%Z [mkParamGroup Z unit 1%Z tt]
                  [mkParamGroup Z unit 2%Z tt]) = Ok s'
    /\ old_lr Z unit s'
       = Nat.iter 3 (fun lr => (lr - 100 / 10)%Z) 100%Z
    /\ map (pg_rest Z unit) (optimizer_D Z unit s') = [tt]
    /\ map (pg_rest Z unit) (optimizer_G Z unit s') = [tt]
    /\ (0 < 3 -> in_sync Z unit s').
Proof.
  apply (update_learning_rate_linear Z Z.sub Z.div unit 100%Z 10%Z 3
           (mkSchedule Z unit 100%Z [mkParamGroup Z unit 1%Z tt]
                       [mkParamGroup Z unit 2%Z tt])).
  discriminate.
Defined.

Lemma set_continue_then_update_witness :
  in_sync Z unit
    (set_continue_learning_rate Z unit 50%Z
       (mkSchedule Z unit 100%Z [mkParamGroup Z unit 1%Z tt] []))
  /\ exists s',
       update_learning_rate Z Z.sub Z.div unit 100%Z 10%Z
         (set_continue_learning_rate Z unit 50%Z
            (mkSchedule Z unit 100%Z [mkParamGroup Z unit 1%Z tt] []))
       = Ok s'
       /\ old_lr Z unit s' = (50 - 100 / 10)%Z
       /\ in_sync Z unit s'
       /\ length (optimizer_D Z unit s') = 1
       /\ length (optimizer_G Z unit s') = 0
       /\ update_learning_rate Z Z.sub Z.div unit 100%Z 0
            (set_continue_learning_rate Z unit 50%Z
               (mkSchedule Z unit 100%Z [mkParamGroup Z unit 1%Z tt] []))
          = Raise ZeroDivisionError.
Proof.
  apply (set_continue_then_update Z Z.sub Z.div unit 100%Z 50%Z 10%Z
           (mkSchedule Z unit 100%Z [mkParamGroup Z unit 1%Z tt] [])).
  discriminate.
Defined.
